(** * A shallow embedding of the image crawler

    The development follows the three JavaScript sources of the repository:
    - [src/crawler.js]           (module [Crawler]): image ingestion
      ([downloadImages], [filenameFromUrl]) and the breadth-first site crawl;
    - [src/pinterest-driver.js]  (module [Pinterest]): the scroll collector;
    - [src/server.js]            (module [Server]): image deletion, the
      progress estimator and the job state.

    Conventions of the embedding:
    - JavaScript strings are values of [string], sequences of 8-bit code
      units; a value that is a string or [undefined] is an [option string];
    - numbers that the code compares and counts are integers ([Z]) or
      natural numbers; the one division, in the progress estimator, is done
      on exact rationals, [Math.round] being the floor of the number plus
      one half;
    - a [Set] that is iterated is a duplicate-free list in insertion order,
      a [Set] that is only queried is a [gset string], the content store is
      a [gmap] from paths to bytes;
    - a call that can throw returns a [Try]; the [catch] blocks of the
      source are the [Throw] branches;
    - appending a line to the activity record succeeds; the record is a list
      of [Log.Activity] values, one constructor per message template, and
      [Log.message_of] gives the text of a line;
    - collaborators that are not part of the repository (the HTTP client,
      cheerio, the image decoder and encoder, the [URL] class, SHA-1,
      [Date.parse], the browser page) are fields of environment records;
    - loops that need not end ([while (queue.length > 0)]) are iterated turn
      by turn, the [while] loop of the collector runs on fuel and is shown
      to end. *)

From Stdlib Require Import ZArith QArith Qround Ascii.
From stdpp Require Import base tactics option list strings gmap sets pretty.

Local Open Scope Z_scope.

(* ===================================================================== *)
(** * JavaScript strings and ordered sets                                 *)
(* ===================================================================== *)

Module JS.

Definition chars (s : string) : list ascii := String.list_ascii_of_string s.
Definition str (l : list ascii) : string := String.string_of_list_ascii l.

Fixpoint take_while {A} (p : A → bool) (l : list A) : list A :=
  match l with
  | [] => []
  | x :: l' => if p x then x :: take_while p l' else []
  end.

Fixpoint drop_while {A} (p : A → bool) (l : list A) : list A :=
  match l with
  | [] => []
  | x :: l' => if p x then drop_while p l' else l
  end.

Definition code (c : ascii) : N := N_of_ascii c.

(** White space and line terminators as [String.prototype.trim] and the
    regular expression class [\s] see them, among 8-bit code units. *)
Definition is_white_space (c : ascii) : bool :=
  let n := code c in
  ((9 <=? n) && (n <=? 13) || (n =? 32) || (n =? 160))%N.

(** Line terminators, which the regular expression [.] does not match. *)
Definition is_line_terminator (c : ascii) : bool :=
  let n := code c in ((n =? 10) || (n =? 13))%N.

Definition is_upper (c : ascii) : bool :=
  let n := code c in ((65 <=? n) && (n <=? 90))%N.
Definition is_lower (c : ascii) : bool :=
  let n := code c in ((97 <=? n) && (n <=? 122))%N.
Definition is_digit (c : ascii) : bool :=
  let n := code c in ((48 <=? n) && (n <=? 57))%N.
Definition is_alnum (c : ascii) : bool := is_upper c || is_lower c || is_digit c.

Definition lower_char (c : ascii) : ascii :=
  if is_upper c then ascii_of_N (code c + 32) else c.

Definition toLowerCase_l (l : list ascii) : list ascii := map lower_char l.
Definition toLowerCase (s : string) : string := str (toLowerCase_l (chars s)).

Definition trim_l (l : list ascii) : list ascii :=
  rev (drop_while is_white_space (rev (drop_while is_white_space l))).
Definition trim (s : string) : string := str (trim_l (chars s)).

Fixpoint startsWith_l (l p : list ascii) {struct p} : bool :=
  match p, l with
  | [], _ => true
  | a :: p', b :: l' => if Ascii.eqb a b then startsWith_l l' p' else false
  | _ :: _, [] => false
  end.
Definition startsWith (s p : string) : bool := startsWith_l (chars s) (chars p).

Fixpoint includes_l (l k : list ascii) : bool :=
  startsWith_l l k ||
  match l with
  | [] => false
  | _ :: l' => includes_l l' k
  end.
Definition includes (s k : string) : bool := includes_l (chars s) (chars k).

(** [s.split(sep)] for a one-character separator. *)
Fixpoint split_l (sep : ascii) (l : list ascii) : list (list ascii) :=
  match l with
  | [] => [[]]
  | c :: l' =>
      if Ascii.eqb c sep then [] :: split_l sep l'
      else match split_l sep l' with
           | [] => [[c]]
           | w :: ws => (c :: w) :: ws
           end
  end.
Definition split (sep : ascii) (s : string) : list string :=
  map str (split_l sep (chars s)).

(** [s.slice(0, n)]. *)
Definition slice0 (n : nat) (s : string) : string := str (take n (chars s)).

(** A [Set] that is iterated: insertion order, first occurrence kept. *)
Definition set_add `{EqDecision A} (x : A) (s : list A) : list A :=
  if decide (x ∈ s) then s else s ++ [x].

Definition set_of_list `{EqDecision A} (l : list A) : list A :=
  foldl (λ s x, set_add x s) [] l.

(** [Math.round] on exact rationals: the nearest integer, halves up. *)
Definition Math_round (q : Q) : Z := Qfloor (q + (1 # 2))%Q.

(** A decimal integer literal as [Number] reads the capture of [(\d+)]. *)
Definition digit_val (c : ascii) : Z := Z.of_N (code c) - 48.
Definition Number_digits (l : list ascii) : Z :=
  foldl (λ acc c, 10 * acc + digit_val c) 0 l.

(** POSIX [path.basename]: trailing slashes are dropped, then the part after
    the last remaining slash is kept. *)
Definition is_slash (c : ascii) : bool := Ascii.eqb c "/".
Definition basename_l (l : list ascii) : list ascii :=
  rev (take_while (λ c, negb (is_slash c)) (drop_while is_slash (rev l))).
Definition basename (p : string) : string := str (basename_l (chars p)).

(** [path.join(dir, name)] for a normalized [dir] and a single segment. *)
Definition path_join (dir name : string) : string := dir +:+ "/" +:+ name.

(** The rest of [l] after the literal [p]. *)
Fixpoint strip_prefix (p l : list ascii) {struct p} : option (list ascii) :=
  match p, l with
  | [], _ => Some l
  | a :: p', b :: l' => if Ascii.eqb a b then strip_prefix p' l' else None
  | _ :: _, [] => None
  end.

(** One or more of a character class, taken greedily. *)
Definition many1 (p : ascii → bool) (l : list ascii) : option (list ascii * list ascii) :=
  match take_while p l with
  | [] => None
  | m => Some (m, drop_while p l)
  end.

(** The outcome of a call that may throw; [Throw] carries [err.message]. *)
Inductive Try (A : Type) :=
| Ret (a : A)
| Throw (message : string).
Arguments Ret {A} a.
Arguments Throw {A} message.

Definition bool_str (b : bool) : string := if b then "true" else "false".

End JS.

(* ===================================================================== *)
(** * Collaborators: the URL class and the activity record                *)
(* ===================================================================== *)

Module Url.
Import JS.

(** The [URL] class of [node:url].  [new_URL raw base] is
    [new URL(raw, base)], [set_hash] and [set_pathname] are the assignments
    to [.hash] and [.pathname]. *)
Record Lib := {
  URL : Type;
  new_URL : string → option string → Try URL;
  href : URL → string;
  protocol : URL → string;
  origin : URL → string;
  hostname : URL → string;
  pathname : URL → string;
  set_hash : string → URL → URL;
  set_pathname : string → URL → URL
}.

(** The part of the URL Standard the site crawl relies on: the
    serialization of a parsed URL whose fragment was cleared parses again,
    to a URL of the same scheme and origin. *)
Record Laws (L : Lib) : Prop := {
  reparse : ∀ raw base (u : URL L),
    new_URL L raw base = Ret u →
    ∃ u' : URL L,
      new_URL L (href L (set_hash L "" u)) None = Ret u' ∧
      origin L u' = origin L u ∧ protocol L u' = protocol L u
}.
End Url.

Module Log.
Import JS.

(** The calls of [log] in crawler.js and pinterest-driver.js, one
    constructor per message template. *)
Inductive Activity :=
| RunStart (mode : string) (minWidth quality : Z)
| RunEnd (pagesVisited imagesFound imagesSaved : nat)
| SiteVisit (depth : Z) (url : string)
| SitePageError (url message : string)
| SiteSkippedNonHtml (url : string)
| SiteDiscovered (page : string) (images : nat)
| ImgFailedNonImage (url : string)
| ImgSkippedSmall (url : string) (width minWidth : Z)
| ImgSaved (path : string) (width : Z) (height : option Z)
           (bytesBefore bytesAfter : nat) (recompressed : bool)
| ImgError (url message : string)
| PinterestOpen (targetUrl : string)
| PinterestConsent
| PinterestScroll (scroll collected adsSkipped : nat)
| PinterestCollectedTotal (imagesFound : nat).

(** The text handed to [log]; the logger puts the time stamp before it. *)
Definition message_of (a : Activity) : string :=
  match a with
  | RunStart mode minWidth quality =>
      "RUN start mode=" +:+ mode +:+ " minWidth=" +:+ pretty minWidth
        +:+ " quality=" +:+ pretty quality
  | RunEnd pv found saved =>
      "RUN end pagesVisited=" +:+ pretty pv +:+ " imagesFound=" +:+ pretty found
        +:+ " imagesSaved=" +:+ pretty saved
  | SiteVisit depth url => "SITE visit depth=" +:+ pretty depth +:+ " url=" +:+ url
  | SitePageError url m => "SITE page_error url=" +:+ url +:+ " err=" +:+ m
  | SiteSkippedNonHtml url => "SITE skipped_non_html url=" +:+ url
  | SiteDiscovered page n => "SITE discovered page=" +:+ page +:+ " images=" +:+ pretty n
  | ImgFailedNonImage url => "IMG failed_non_image_or_status url=" +:+ url
  | ImgSkippedSmall url w mw =>
      "IMG skipped_small url=" +:+ url +:+ " width=" +:+ pretty w
        +:+ " minWidth=" +:+ pretty mw
  | ImgSaved path w h bb ba r =>
      "IMG saved path=" +:+ path +:+ " width=" +:+ pretty w
        +:+ " height=" +:+ match h with Some h => pretty h | None => "?" end
        +:+ " bytesBefore=" +:+ pretty bb +:+ " bytesAfter=" +:+ pretty ba
        +:+ " recompressed=" +:+ bool_str r
  | ImgError url m => "IMG error url=" +:+ url +:+ " err=" +:+ m
  | PinterestOpen t => "PINTEREST open " +:+ t
  | PinterestConsent => "PINTEREST consent accepted"
  | PinterestScroll sc c ads =>
      "PINTEREST scroll=" +:+ pretty sc +:+ " collected=" +:+ pretty c
        +:+ " adsSkipped=" +:+ pretty ads
  | PinterestCollectedTotal n => "PINTEREST collected_total=" +:+ pretty n
  end.
End Log.

(* ===================================================================== *)
(** * crawler.js: file names, ingestion, the site crawl                   *)
(* ===================================================================== *)

Module Crawler.
Import JS Log.

(** ** The environment of a run *)

Record Response := {
  statusCode : Z;
  content_type : option string;      (* [res.headers['content-type']] *)
  body : string
}.

(** What [imageSize] reports; a field that is [undefined] is [None]. *)
Record ImageInfo := {
  width : option Z;
  height : option Z;
  type : option string
}.

(** The attributes of an [img] element that the crawler reads. *)
Record ImgEl := {
  src : option string;
  data_src : option string;
  data_original : option string
}.

(** A parsed page: its [img] elements and the [href] values of the
    elements matching [a[href]], in document order. *)
Record Document := {
  imgs : list ImgEl;
  anchors : list string
}.

Record Env := {
  url_lib : Url.Lib;
  client_get : string → Try Response;
  cheerio_load : string → Document;
  imageSize : string → Try ImageInfo;
  (** [sharp(buffer).rotate().<format>(settings).toBuffer()] *)
  sharp_encode : string → Z → string → Try string;
  (** the message with which [fs.writeFile] rejects for a path, if it does *)
  writeFile_error : string → option string;
  (** [crypto.createHash('sha1').update(s).digest('hex')] *)
  sha1_hex : string → string
}.

(** ** Small helpers *)

(** [a || b] on values that are a string or [undefined]. *)
Definition or_str (a b : option string) : option string :=
  match a with
  | Some s => if String.eqb s "" then b else a
  | None => b
  end.

(** [n || 0] on a number or [undefined]. *)
Definition or_zero (n : option Z) : Z := default 0 n.

Definition truthy_num (n : option Z) : option Z :=
  match n with
  | Some z => if z =? 0 then None else Some z
  | None => None
  end.

Definition normalizeQuality (value : option Q) (fallback : Z) : Z :=
  match value with
  | None => fallback
  | Some parsed => Z.max 1 (Z.min 100 (Math_round parsed))
  end.

Definition normalizeUrl (E : Env) (raw base : string) : option string :=
  match Url.new_URL (url_lib E) raw (Some base) with
  | Ret u => Some (Url.href (url_lib E) u)
  | Throw _ => None
  end.

Definition filename_char_ok (c : ascii) : bool :=
  is_alnum c || Ascii.eqb c "." || Ascii.eqb c "_" || Ascii.eqb c "-".

Definition sanitizeFilename_l (l : list ascii) : list ascii :=
  take 180 (map (λ c, if filename_char_ok c then c else "_"%char) l).
Definition sanitizeFilename (name : string) : string :=
  str (sanitizeFilename_l (chars name)).

Definition content_type_extensions : list (string * string) :=
  [("image/jpeg", ".jpg"); ("image/png", ".png"); ("image/webp", ".webp");
   ("image/gif", ".gif"); ("image/svg+xml", ".svg"); ("image/bmp", ".bmp");
   ("image/tiff", ".tiff"); ("image/avif", ".avif")].

Definition image_type_extensions : list (string * string) :=
  [("jpg", ".jpg"); ("jpeg", ".jpg"); ("png", ".png"); ("webp", ".webp");
   ("gif", ".gif"); ("svg", ".svg"); ("bmp", ".bmp"); ("tiff", ".tiff");
   ("avif", ".avif")].

(** [map[key] || ''] *)
Fixpoint lookup_ext (map : list (string * string)) (key : string) : string :=
  match map with
  | [] => ""
  | (k, v) :: rest => if String.eqb k key then v else lookup_ext rest key
  end.

Definition extensionFromContentType (contentType : option string) : string :=
  let first := default "" (head (split ";" (default "" (or_str contentType None)))) in
  let clean := toLowerCase (trim first) in
  lookup_ext content_type_extensions clean.

Definition extensionFromImageType (type : option string) : string :=
  lookup_ext image_type_extensions (toLowerCase (default "" (or_str type None))).

(** [baseName.replace(/\.[a-zA-Z0-9]{2,6}$/i, '')]: a final dot followed by
    two to six letters or digits is removed. *)
Definition strip_extension_l (l : list ascii) : list ascii :=
  let r := rev l in
  let ext := take_while is_alnum r in
  match drop_while is_alnum r with
  | c :: rest =>
      if Ascii.eqb c "." && (2 <=? length ext)%nat && (length ext <=? 6)%nat
      then rev rest else l
  | [] => l
  end.
Definition strip_extension (s : string) : string := str (strip_extension_l (chars s)).

(** [s || 'image'] *)
Definition or_image (s : string) : string := if String.eqb s "" then "image" else s.

Definition filenameFromUrl (E : Env) (imageUrl : string) (imageType contentType : option string)
    (width height : option Z) : Try string :=
  match Url.new_URL (url_lib E) imageUrl None with
  | Throw m => Throw m
  | Ret parsed =>
      let baseName := or_image (basename (Url.pathname (url_lib E) parsed)) in
      let baseNoExt := or_image (strip_extension baseName) in
      let safeBase := sanitizeFilename baseNoExt in
      let ext :=
        let e1 := extensionFromImageType imageType in
        if String.eqb e1 "" then
          let e2 := extensionFromContentType contentType in
          if String.eqb e2 "" then ".img" else e2
        else e1 in
      let hash := slice0 10 (sha1_hex E imageUrl) in
      let sizeTag := pretty (or_zero width) +:+ "x" +:+ pretty (or_zero height) in
      Ret (hash +:+ "-" +:+ sizeTag +:+ "-" +:+ safeBase +:+ ext)
  end.

(** ** Extraction from a parsed page *)

Definition extractImageUrls (E : Env) (doc : Document) (pageUrl : string) : list string :=
  foldl (λ set el,
    match or_str (src el) (or_str (data_src el) (data_original el)) with
    | None => set
    | Some s =>
        if String.eqb s "" then set
        else match normalizeUrl E s pageUrl with
             | None => set
             | Some full => if startsWith full "data:" then set else set_add full set
             end
    end) [] (imgs doc).

Definition is_http (proto : string) : bool :=
  String.eqb proto "http:" || String.eqb proto "https:".

(** One turn of the [each] callback of [extractLinks]. *)
Definition link_step (E : Env) (pageUrl origin : string) (sameOriginOnly : bool)
    (acc : Try (list string)) (href : string) : Try (list string) :=
  match acc with
  | Throw m => Throw m
  | Ret set =>
      if String.eqb href "" then Ret set
      else match normalizeUrl E href pageUrl with
           | None => Ret set
           | Some full =>
               match Url.new_URL (url_lib E) full None with
               | Throw m => Throw m
               | Ret parsed =>
                   if negb (is_http (Url.protocol (url_lib E) parsed)) then Ret set
                   else if sameOriginOnly
                           && negb (String.eqb (Url.origin (url_lib E) parsed) origin)
                   then Ret set
                   else Ret (set_add (Url.href (url_lib E) (Url.set_hash (url_lib E) "" parsed)) set)
               end
           end
  end.

Definition extractLinks (E : Env) (doc : Document) (pageUrl : string) (sameOriginOnly : bool)
  : Try (list string) :=
  match Url.new_URL (url_lib E) pageUrl None with
  | Throw m => Throw m
  | Ret page =>
      foldl (link_step E pageUrl (Url.origin (url_lib E) page) sameOriginOnly)
            (Ret []) (anchors doc)
  end.

(** ** Fetching *)

Definition header_lower (h : option string) : string :=
  toLowerCase (default "" (or_str h None)).

(** [fetchHtml]: the body of an HTML response, [null] for another one. *)
Definition fetchHtml (E : Env) (pageUrl : string) : Try (option string) :=
  match client_get E pageUrl with
  | Throw m => Throw m
  | Ret res =>
      if negb (includes (header_lower (content_type res)) "text/html") then Ret None
      else Ret (Some (body res))
  end.

Record ImageData := {
  contentType : string;
  buffer : string
}.

Definition fetchImage (E : Env) (imageUrl : string) : Try (option ImageData) :=
  match client_get E imageUrl with
  | Throw m => Throw m
  | Ret res =>
      if (statusCode res <? 200) || (400 <=? statusCode res) then Ret None
      else
        let ct := header_lower (content_type res) in
        if negb (startsWith ct "image/") then Ret None
        else Ret (Some {| contentType := ct; buffer := body res |})
  end.

Definition recompressible : list string := ["jpg"; "jpeg"; "png"; "webp"; "avif"; "tiff"].

Definition recompressImage (E : Env) (buffer : string) (imageType : option string) (quality : Z)
  : Try (string * bool) :=
  let type := toLowerCase (default "" (or_str imageType None)) in
  if negb (bool_decide (type ∈ recompressible)) then Ret (buffer, false)
  else
    let q := normalizeQuality (Some (inject_Z quality)) 75 in
    match sharp_encode E type q buffer with
    | Throw m => Throw m
    | Ret out => Ret (out, true)
    end.

(** ** Ingestion: [downloadImages] *)

Record Stats := {
  imagesFound : nat;
  imagesSaved : nat;
  imagesSkippedSmall : nat;
  imagesFailed : nat;
  imagesRecompressed : nat;
  bytesBefore : nat;
  bytesAfter : nat
}.

(** The state of the loop of [downloadImages]: its two local variables, the
    content store and the activity record, and the effects it has issued:
    the locations requested from the client and, for every call of
    [fs.writeFile] that succeeded, the candidate being processed, the path
    and the bytes written. *)
Record Ingest := {
  stats : Stats;
  downloadedImages : gset string;
  store : gmap string string;
  activity : list Activity;
  fetched : list string;
  written : list (string * string * string)
}.

Definition with_stats (f : Stats → Stats) (st : Ingest) : Ingest :=
  {| stats := f (stats st); downloadedImages := downloadedImages st;
     store := store st; activity := activity st;
     fetched := fetched st; written := written st |}.

(** [await log(message)]: one more line in the activity record.  Appending
    to the record is taken to succeed. *)
Definition log (a : Activity) (st : Ingest) : Ingest :=
  {| stats := stats st; downloadedImages := downloadedImages st;
     store := store st; activity := activity st ++ [a];
     fetched := fetched st; written := written st |}.

Definition incr_saved (s : Stats) : Stats :=
  {| imagesFound := imagesFound s; imagesSaved := S (imagesSaved s);
     imagesSkippedSmall := imagesSkippedSmall s; imagesFailed := imagesFailed s;
     imagesRecompressed := imagesRecompressed s;
     bytesBefore := bytesBefore s; bytesAfter := bytesAfter s |}.
Definition incr_skipped (s : Stats) : Stats :=
  {| imagesFound := imagesFound s; imagesSaved := imagesSaved s;
     imagesSkippedSmall := S (imagesSkippedSmall s); imagesFailed := imagesFailed s;
     imagesRecompressed := imagesRecompressed s;
     bytesBefore := bytesBefore s; bytesAfter := bytesAfter s |}.
Definition incr_failed (s : Stats) : Stats :=
  {| imagesFound := imagesFound s; imagesSaved := imagesSaved s;
     imagesSkippedSmall := imagesSkippedSmall s; imagesFailed := S (imagesFailed s);
     imagesRecompressed := imagesRecompressed s;
     bytesBefore := bytesBefore s; bytesAfter := bytesAfter s |}.
Definition incr_recompressed (s : Stats) : Stats :=
  {| imagesFound := imagesFound s; imagesSaved := imagesSaved s;
     imagesSkippedSmall := imagesSkippedSmall s; imagesFailed := imagesFailed s;
     imagesRecompressed := S (imagesRecompressed s);
     bytesBefore := bytesBefore s; bytesAfter := bytesAfter s |}.
Definition add_before (n : nat) (s : Stats) : Stats :=
  {| imagesFound := imagesFound s; imagesSaved := imagesSaved s;
     imagesSkippedSmall := imagesSkippedSmall s; imagesFailed := imagesFailed s;
     imagesRecompressed := imagesRecompressed s;
     bytesBefore := (bytesBefore s + n)%nat; bytesAfter := bytesAfter s |}.
Definition add_after (n : nat) (s : Stats) : Stats :=
  {| imagesFound := imagesFound s; imagesSaved := imagesSaved s;
     imagesSkippedSmall := imagesSkippedSmall s; imagesFailed := imagesFailed s;
     imagesRecompressed := imagesRecompressed s;
     bytesBefore := bytesBefore s; bytesAfter := (bytesAfter s + n)%nat |}.

(** The [catch] block. *)
Definition on_throw (imageUrl message : string) (st : Ingest) : Ingest :=
  log (ImgError imageUrl message) (with_stats incr_failed st).

(** [await fs.writeFile(filePath, outputBuffer)] while [imageUrl] is
    processed. *)
Definition writeFile (E : Env) (imageUrl filePath data : string) (st : Ingest) : Try Ingest :=
  match writeFile_error E filePath with
  | Some m => Throw m
  | None =>
      Ret {| stats := stats st; downloadedImages := downloadedImages st;
             store := <[filePath := data]> (store st); activity := activity st;
             fetched := fetched st; written := written st ++ [(imageUrl, filePath, data)] |}
  end.

(** The [try] block for a location that was not seen before. *)
Definition ingest (E : Env) (outputDir : string) (minWidth quality : Z)
    (imageUrl : string) (st : Ingest) : Ingest :=
  match fetchImage E imageUrl with
  | Throw m => on_throw imageUrl m st
  | Ret None => log (ImgFailedNonImage imageUrl) (with_stats incr_failed st)
  | Ret (Some imageData) =>
      match imageSize E (buffer imageData) with
      | Throw m => on_throw imageUrl m st
      | Ret size =>
          if match truthy_num (width size) with
             | None => true
             | Some w => w <? minWidth
             end
          then log (ImgSkippedSmall imageUrl (or_zero (width size)) minWidth)
                   (with_stats incr_skipped st)
          else
            let st := with_stats (add_before (String.length (buffer imageData))) st in
            match recompressImage E (buffer imageData) (type size) quality with
            | Throw m => on_throw imageUrl m st
            | Ret (outputBuffer, recompressed) =>
                let st := with_stats (add_after (String.length outputBuffer)) st in
                let st := if recompressed then with_stats incr_recompressed st else st in
                match filenameFromUrl E imageUrl (type size) (Some (contentType imageData))
                                      (width size) (height size) with
                | Throw m => on_throw imageUrl m st
                | Ret filename =>
                    let filePath := path_join outputDir filename in
                    match writeFile E imageUrl filePath outputBuffer st with
                    | Throw m => on_throw imageUrl m st
                    | Ret st =>
                        log (ImgSaved filePath (or_zero (width size)) (truthy_num (height size))
                                      (String.length (buffer imageData))
                                      (String.length outputBuffer) recompressed)
                            (with_stats incr_saved st)
                    end
                end
            end
      end
  end.

(** One turn of [for (const imageUrl of imageUrls)]. *)
Definition download_step (E : Env) (outputDir : string) (minWidth quality : Z)
    (st : Ingest) (imageUrl : string) : Ingest :=
  if decide (imageUrl ∈ downloadedImages st) then st
  else
    let st :=
      {| stats := stats st; downloadedImages := {[imageUrl]} ∪ downloadedImages st;
         store := store st; activity := activity st;
         fetched := fetched st ++ [imageUrl]; written := written st |} in
    ingest E outputDir minWidth quality imageUrl st.

Definition initial_stats (imageUrls : list string) : Stats :=
  {| imagesFound := length imageUrls; imagesSaved := 0; imagesSkippedSmall := 0;
     imagesFailed := 0; imagesRecompressed := 0; bytesBefore := 0; bytesAfter := 0 |}.

(** The state in which [downloadImages] enters its loop, given the content
    store and the activity record as they are at the call. *)
Definition download_start (imageUrls : list string) (store0 : gmap string string)
    (activity0 : list Activity) : Ingest :=
  {| stats := initial_stats imageUrls; downloadedImages := ∅; store := store0;
     activity := activity0; fetched := []; written := [] |}.

Definition downloadImages (E : Env) (imageUrls : list string) (outputDir : string)
    (minWidth quality : Z) (store0 : gmap string string) (activity0 : list Activity)
  : Ingest :=
  foldl (download_step E outputDir minWidth quality)
        (download_start imageUrls store0 activity0) imageUrls.

(** ** The site crawl: the [else] branch of [run] *)

Record QueueItem := {
  q_url : string;
  q_depth : Z
}.

Record Crawl := {
  queue : list QueueItem;
  visitedPages : gset string;
  discoveredImages : list string;
  pagesVisited : nat;
  crawl_log : list Activity
}.

Definition crawl_start (startUrl : string) (log0 : list Activity) : Crawl :=
  {| queue := [{| q_url := startUrl; q_depth := 0 |}]; visitedPages := ∅;
     discoveredImages := []; pagesVisited := 0; crawl_log := log0 |}.

(** Where one turn of [while (queue.length > 0)] leaves the crawl: in the
    loop, past it, or with the exception of [extractLinks], which [run]
    does not catch. *)
Inductive Turn :=
| Looping (c : Crawl)
| Finished (c : Crawl)
| Crashed (message : string) (c : Crawl).

Definition enqueue_links (depth : Z) (links : list string) (visited : gset string)
    (queue : list QueueItem) : list QueueItem :=
  foldl (λ q link,
           if decide (link ∈ visited) then q
           else q ++ [{| q_url := link; q_depth := depth + 1 |}])
        queue links.

Definition crawl_turn (E : Env) (maxDepth : Z) (sameOriginOnly : bool) (c : Crawl) : Turn :=
  match queue c with
  | [] => Finished c
  | current :: rest =>
      if bool_decide (q_url current ∈ visitedPages c) || (maxDepth <? q_depth current) then
        Looping {| queue := rest; visitedPages := visitedPages c;
                   discoveredImages := discoveredImages c;
                   pagesVisited := pagesVisited c; crawl_log := crawl_log c |}
      else
        let visited := {[q_url current]} ∪ visitedPages c in
        let lg := crawl_log c ++ [SiteVisit (q_depth current) (q_url current)] in
        match fetchHtml E (q_url current) with
        | Throw m =>
            Looping {| queue := rest; visitedPages := visited;
                       discoveredImages := discoveredImages c;
                       pagesVisited := pagesVisited c;
                       crawl_log := lg ++ [SitePageError (q_url current) m] |}
        | Ret html =>
            match or_str html None with
            | None =>
                Looping {| queue := rest; visitedPages := visited;
                           discoveredImages := discoveredImages c;
                           pagesVisited := pagesVisited c;
                           crawl_log := lg ++ [SiteSkippedNonHtml (q_url current)] |}
            | Some html =>
                let doc := cheerio_load E html in
                let imageUrls := extractImageUrls E doc (q_url current) in
                let c' :=
                  {| queue := rest; visitedPages := visited;
                     discoveredImages := discoveredImages c ++ imageUrls;
                     pagesVisited := S (pagesVisited c);
                     crawl_log := lg ++ [SiteDiscovered (q_url current) (length imageUrls)] |} in
                if q_depth current <? maxDepth then
                  match extractLinks E doc (q_url current) sameOriginOnly with
                  | Throw m => Crashed m c'
                  | Ret links =>
                      Looping {| queue := enqueue_links (q_depth current) links visited rest;
                                 visitedPages := visited;
                                 discoveredImages := discoveredImages c';
                                 pagesVisited := pagesVisited c';
                                 crawl_log := crawl_log c' |}
                  end
                else Looping c'
            end
        end
  end.

(** The crawl after at most [n] turns of the loop. *)
Fixpoint crawl_turns (E : Env) (maxDepth : Z) (sameOriginOnly : bool) (n : nat) (c : Crawl)
  : Turn :=
  match n with
  | O => Looping c
  | S n' =>
      match crawl_turn E maxDepth sameOriginOnly c with
      | Looping c' => crawl_turns E maxDepth sameOriginOnly n' c'
      | t => t
      end
  end.

Definition crawl_of (t : Turn) : Crawl :=
  match t with
  | Looping c | Finished c | Crashed _ c => c
  end.

(** ** Notions used in the properties *)

(** The three outcome counters together. *)
Definition outcomes (s : Stats) : nat :=
  (imagesSaved s + imagesSkippedSmall s + imagesFailed s)%nat.

(** A location whose fetch gives an image that the decoder reads with an
    unknown width or a width below [minWidth]. *)
Definition too_small (E : Env) (minWidth : Z) (imageUrl : string) : bool :=
  match fetchImage E imageUrl with
  | Ret (Some imageData) =>
      match imageSize E (buffer imageData) with
      | Ret size =>
          match truthy_num (width size) with
          | None => true
          | Some w => w <? minWidth
          end
      | Throw _ => false
      end
  | _ => false
  end.

(** The width that the line of a too small candidate reports. *)
Definition decoded_width (E : Env) (imageUrl : string) : Z :=
  match fetchImage E imageUrl with
  | Ret (Some imageData) =>
      match imageSize E (buffer imageData) with
      | Ret size => or_zero (width size)
      | Throw _ => 0
      end
  | _ => 0
  end.

(** The content store after a sequence of successful writes. *)
Definition apply_writes (ws : list (string * string * string)) (m : gmap string string)
  : gmap string string :=
  foldl (λ m w, <[w.1.2 := w.2]> m) m ws.

(** The bytes of the last write to a path, if there is one. *)
Definition last_write (ws : list (string * string * string)) (p : string) : option string :=
  foldl (λ acc w, if decide (w.1.2 = p) then Some w.2 else acc) None ws.


(** The state in which the [try] block is entered. *)
Definition seen (u : string) (st : Ingest) : Ingest :=
  {| stats := stats st; downloadedImages := {[u]} ∪ downloadedImages st;
     store := store st; activity := activity st;
     fetched := fetched st ++ [u]; written := written st |}.

(** A write for a location of the list that is not too small, under the
    name that [filenameFromUrl] gives it. *)
Definition write_ok (E : Env) (dir : string) (mw : Z) (urls : list string)
    (w : string * string * string) : Prop :=
  w.1.1 ∈ urls ∧ too_small E mw w.1.1 = false ∧
  ∃ img size name,
    fetchImage E w.1.1 = Ret (Some img) ∧ imageSize E (buffer img) = Ret size ∧
    filenameFromUrl E w.1.1 (type size) (Some (contentType img)) (width size) (height size)
      = Ret name ∧
    w.1.2 = path_join dir name.

(** The entry with which the frontier starts. *)
Definition seed_item (startUrl : string) : QueueItem :=
  {| q_url := startUrl; q_depth := 0 |}.

(** A link as [extractLinks] hands it over: the serialization of a parsed
    URL whose fragment was cleared, which parses to an http or https URL and,
    under [sameOriginOnly], to one of the origin of the seed. *)
Definition enqueued_link (E : Env) (sameOriginOnly : bool) (startUrl link : string) : Prop :=
  ∃ raw base parsed u',
    Url.new_URL (url_lib E) raw base = Ret parsed ∧
    link = Url.href (url_lib E) (Url.set_hash (url_lib E) "" parsed) ∧
    Url.new_URL (url_lib E) link None = Ret u' ∧
    is_http (Url.protocol (url_lib E) u') = true ∧
    (sameOriginOnly = true →
     ∃ seed, Url.new_URL (url_lib E) startUrl None = Ret seed ∧
             Url.origin (url_lib E) u' = Url.origin (url_lib E) seed).

(** What [extractLinks] lets through, with respect to the page it reads. *)
Definition link_of_page (E : Env) (sameOriginOnly : bool) (pageUrl link : string) : Prop :=
  ∃ page full parsed,
    Url.new_URL (url_lib E) pageUrl None = Ret page ∧
    Url.new_URL (url_lib E) full None = Ret parsed ∧
    link = Url.href (url_lib E) (Url.set_hash (url_lib E) "" parsed) ∧
    is_http (Url.protocol (url_lib E) parsed) = true ∧
    (sameOriginOnly = true →
     Url.origin (url_lib E) parsed = Url.origin (url_lib E) page).

(** The invariant of the frontier and of the visits in the record. *)
Definition item_ok (E : Env) (maxDepth : Z) (sameOriginOnly : bool) (startUrl : string)
    (item : QueueItem) : Prop :=
  item = seed_item startUrl ∨
  (0 < q_depth item ≤ maxDepth ∧ enqueued_link E sameOriginOnly startUrl (q_url item)).

Definition visit_ok (E : Env) (maxDepth : Z) (sameOriginOnly : bool) (startUrl : string)
    (log0 : list Activity) (a : Activity) : Prop :=
  a ∈ log0 ∨
  match a with
  | SiteVisit d u =>
      d ≤ maxDepth ∧
      ((d = 0 ∧ u = startUrl) ∨ (0 < d ∧ enqueued_link E sameOriginOnly startUrl u))
  | _ => True
  end.

Definition crawl_inv (E : Env) (maxDepth : Z) (sameOriginOnly : bool) (startUrl : string)
    (log0 : list Activity) (c : Crawl) : Prop :=
  Forall (item_ok E maxDepth sameOriginOnly startUrl) (queue c) ∧
  Forall (visit_ok E maxDepth sameOriginOnly startUrl log0) (crawl_log c).

End Crawler.

(* ===================================================================== *)
(** * pinterest-driver.js: the scroll collector                           *)
(* ===================================================================== *)

Module Pinterest.
Import JS Log.

(** What the in-page script reads of an [img] element.  [container_text]
    is the [textContent] of [img.closest(...)], absent when there is no
    such container. *)
Record ImgElement := {
  container_text : option string;
  srcset : option string;          (* [getAttribute('srcset')] *)
  currentSrc : string;
  src_attr : option string;        (* [getAttribute('src')] *)
  naturalWidth : Z;
  naturalHeight : Z
}.

(** [render n] is the list of [img] elements in the document when the
    script is evaluated for the pass that follows [n] scrolls. *)
Record Env := {
  url_lib : Url.Lib;
  render : nat → list ImgElement;
  encodeURIComponent : string → string;
  consent_visible : bool
}.

Definition or_str (a b : option string) : option string :=
  match a with
  | Some s => if String.eqb s "" then b else a
  | None => b
  end.

Definition adKeywords : list string :=
  ["sponsored"; "promoted"; "ad"; "ads"; "sponsorizzato"; "pubblicita"].

Definition container_lower (img : ImgElement) : string :=
  toLowerCase (default "" (or_str (container_text img) None)).

Definition is_ad (img : ImgElement) : bool :=
  existsb (λ k, includes (container_lower img) k) adKeywords.

(** [item.trim().split(/\s+/)[0]] *)
Definition first_token (item : string) : string :=
  str (take_while (λ c, negb (is_white_space c)) (trim_l (chars item))).

Definition candidate_of (img : ImgElement) : string :=
  let srcset := default "" (or_str (srcset img) None) in
  let candidate := default "" (or_str (Some (currentSrc img)) (or_str (src_attr img) None)) in
  if String.eqb (trim srcset) "" then candidate
  else
    let parts := filter (λ s, s ≠ "") (map first_token (split "," srcset)) in
    match last parts with
    | Some p => p
    | None => candidate
    end.

Record Batch := {
  urls : list string;
  localAdsSkipped : nat
}.

(** One turn of [for (const img of imgs)] in the in-page script. *)
Definition inspect (b : Batch) (img : ImgElement) : Batch :=
  if is_ad img then {| urls := urls b; localAdsSkipped := S (localAdsSkipped b) |}
  else
    let candidate := candidate_of img in
    if negb (startsWith candidate "http") then b
    else if (120 <? naturalWidth img) && (120 <? naturalHeight img)
    then {| urls := urls b ++ [candidate]; localAdsSkipped := localAdsSkipped b |}
    else b.

(** The function passed to [page.evaluate]. *)
Definition evaluate (imgs : list ImgElement) : Batch :=
  foldl inspect {| urls := []; localAdsSkipped := 0 |} imgs.

(** The first match of a slash, digits, [x], a slash: what follows it. *)
Definition thumb_here (l : list ascii) : option (list ascii) :=
  r ← strip_prefix (chars "/") l;
  '(_, r) ← many1 is_digit r;
  strip_prefix (chars "x/") r.

Fixpoint replace_thumb_l (l : list ascii) : list ascii :=
  match thumb_here l with
  | Some rest => chars "/originals/" ++ rest
  | None => match l with
            | [] => []
            | c :: l' => c :: replace_thumb_l l'
            end
  end.
Definition replace_thumb (path : string) : string := str (replace_thumb_l (chars path)).

Definition normalizePinterestImageUrl (E : Env) (rawUrl : string) : option string :=
  match Url.new_URL (url_lib E) rawUrl None with
  | Throw _ => None
  | Ret parsed =>
      if negb (includes (Url.hostname (url_lib E) parsed) "pinimg.com")
      then Some (Url.href (url_lib E) parsed)
      else
        let path := replace_thumb (Url.pathname (url_lib E) parsed) in
        Some (Url.href (url_lib E) (Url.set_pathname (url_lib E) path parsed))
  end.

(** [for (const raw of batch.urls)], with its [continue] and [break]. *)
Fixpoint add_batch (E : Env) (maxImages : nat) (raws : list string) (found : list string)
  : list string :=
  match raws with
  | [] => found
  | raw :: rest =>
      match normalizePinterestImageUrl E raw with
      | None => add_batch E maxImages rest found
      | Some normalized =>
          let found := set_add normalized found in
          if (maxImages <=? length found)%nat then found
          else add_batch E maxImages rest found
      end
  end.

Record Collect := {
  found : list string;
  adsSkipped : nat;
  scroll : nat;
  plog : list Activity
}.

(** The body of the [while] loop. *)
Definition pass (E : Env) (maxImages : nat) (st : Collect) : Collect :=
  let batch := evaluate (render E (scroll st)) in
  let ads := (adsSkipped st + localAdsSkipped batch)%nat in
  let found := add_batch E maxImages (urls batch) (found st) in
  {| found := found; adsSkipped := ads; scroll := S (scroll st);
     plog := plog st ++ [PinterestScroll (scroll st + 1) (length found) ads] |}.

Definition guard (maxImages maxScrolls : nat) (st : Collect) : bool :=
  (scroll st <? maxScrolls)%nat && (length (found st) <? maxImages)%nat.

(** [while (scroll < maxScrolls && found.size < maxImages)]; [None] when
    [fuel] turns were not enough to leave the loop. *)
Fixpoint scroll_loop (E : Env) (maxImages maxScrolls : nat) (fuel : nat) (st : Collect)
  : option Collect :=
  if guard maxImages maxScrolls st then
    match fuel with
    | O => None
    | S fuel' => scroll_loop E maxImages maxScrolls fuel' (pass E maxImages st)
    end
  else Some st.

Record CollectStats := {
  scrolls : nat;
  collected : nat;
  st_adsSkipped : nat;
  st_maxImages : nat;
  st_maxScrolls : nat
}.

Record Collected := {
  imageUrls : list string;
  cstats : CollectStats;
  clog : list Activity
}.

Definition collect_start (E : Env) (query : string) (startUrl : option string)
    (log0 : list Activity) : Collect :=
  let targetUrl :=
    default ("https://www.pinterest.com/search/pins/?q=" +:+ encodeURIComponent E query)
            (or_str startUrl None) in
  let lg := log0 ++ [PinterestOpen targetUrl] in
  let lg := if consent_visible E then lg ++ [PinterestConsent] else lg in
  {| found := []; adsSkipped := 0; scroll := 0; plog := lg |}.

(** [collectPinterestImageUrls].  The limits [maxImages] and [maxScrolls]
    are counts, hence natural numbers here; [fuel] bounds the turns of the
    loop. *)
Definition collectPinterestImageUrls (E : Env) (query : string) (startUrl : option string)
    (maxImages maxScrolls : nat) (fuel : nat) (log0 : list Activity) : option Collected :=
  st ← scroll_loop E maxImages maxScrolls fuel (collect_start E query startUrl log0);
  Some {| imageUrls := found st;
          cstats := {| scrolls := scroll st; collected := length (found st);
                       st_adsSkipped := adsSkipped st;
                       st_maxImages := maxImages; st_maxScrolls := maxScrolls |};
          clog := plog st |}.

(** ** Notions used in the properties *)

(** An element whose container text contains [sponsored], as it stands or
    in another case. *)
Definition sponsored (img : ImgElement) : Prop :=
  ∃ text, container_text img = Some text ∧
    (includes text "sponsored" = true ∨ includes (toLowerCase text) "sponsored" = true).

(** The normalized locations that a rendering offers, in order, once. *)
Definition offered (E : Env) (imgs : list ImgElement) : list string :=
  set_of_list (omap (normalizePinterestImageUrl E) (urls (evaluate imgs))).

(** A location that an element without ad text, rendered before pass
    [passes], gives. *)
Definition from_plain_element (E : Env) (passes : nat) (u : string) : Prop :=
  ∃ n img, (n < passes)%nat ∧ img ∈ render E n ∧
           is_ad img = false ∧ ¬ sponsored img ∧
           normalizePinterestImageUrl E (candidate_of img) = Some u.

(** The invariant of the loop. *)
Definition collect_inv (E : Env) (maxImages maxScrolls : nat) (log0 : list Activity)
    (st : Collect) : Prop :=
  (length (found st) ≤ maxImages)%nat ∧ NoDup (found st) ∧
  (scroll st ≤ maxScrolls)%nat ∧
  Forall (from_plain_element E (scroll st)) (found st) ∧
  Forall (λ a, a ∈ log0 ∨
               match a with
               | PinterestScroll k n _ => (k ≤ maxScrolls)%nat ∧ (n ≤ maxImages)%nat
               | _ => True
               end) (plog st).

End Pinterest.

(* ===================================================================== *)
(** * server.js: image deletion, progress estimation, job state           *)
(* ===================================================================== *)

Module Server.
Import JS.

(** ** Request values *)

(** A scalar of a JSON request body; numbers are integers. *)
Inductive JSVal :=
| JUndef | JNull
| JBool (b : bool)
| JNum (z : Z)
| JStr (s : string).

Definition truthy (v : JSVal) : bool :=
  match v with
  | JUndef | JNull => false
  | JBool b => b
  | JNum z => negb (z =? 0)
  | JStr s => negb (String.eqb s "")
  end.

(** [String(v)]. *)
Definition toString (v : JSVal) : string :=
  match v with
  | JUndef => "undefined"
  | JNull => "null"
  | JBool true => "true"
  | JBool false => "false"
  | JNum z => pretty z
  | JStr s => s
  end.

(** [Number(v)]; [None] is NaN.  The string numerals represented are the
    decimal integers with an optional sign; fractions, exponents and the
    other radixes are outside the model. *)
Definition unsigned_numeral (l : list ascii) : option Z :=
  if forallb is_digit l && negb (bool_decide (l = [])) then Some (Number_digits l) else None.

Definition Number_of_string (s : string) : option Z :=
  match trim_l (chars s) with
  | [] => Some 0
  | c :: l =>
      if Ascii.eqb c "-" then Z.opp <$> unsigned_numeral l
      else if Ascii.eqb c "+" then unsigned_numeral l
      else unsigned_numeral (c :: l)
  end.

Definition toNumber (v : JSVal) : option Z :=
  match v with
  | JUndef => None
  | JNull => Some 0
  | JBool b => Some (if b then 1 else 0)
  | JNum z => Some z
  | JStr s => Number_of_string s
  end.

(** [a || b]. *)
Definition or_else (a b : JSVal) : JSVal := if truthy a then a else b.

Record Payload := {
  p_mode : JSVal; p_url : JSVal; p_query : JSVal; p_depth : JSVal;
  p_minWidth : JSVal; p_quality : JSVal; p_cookie : JSVal;
  p_sameOrigin : JSVal; p_maxImages : JSVal; p_maxScrolls : JSVal;
  p_headful : JSVal
}.

(** The payload [{}]. *)
Definition empty_payload : Payload :=
  {| p_mode := JUndef; p_url := JUndef; p_query := JUndef; p_depth := JUndef;
     p_minWidth := JUndef; p_quality := JUndef; p_cookie := JUndef;
     p_sameOrigin := JUndef; p_maxImages := JUndef; p_maxScrolls := JUndef;
     p_headful := JUndef |}.

Definition exists_ (value : JSVal) : bool :=
  match value with
  | JUndef | JNull => false
  | _ => negb (String.eqb (trim (toString value)) "")
  end.

Definition addArg (args : list string) (key : string) (value : JSVal) : list string :=
  if exists_ value then args ++ ["--" +:+ key; toString value] else args.

Definition buildCrawlerArgs (payload : Payload) : list string :=
  let args := ["src/crawler.js"] in
  let mode := or_else (p_mode payload) (JStr "site") in
  let args := addArg args "mode" mode in
  let args := addArg args "url" (p_url payload) in
  let args := addArg args "query" (p_query payload) in
  let args := addArg args "depth" (p_depth payload) in
  let args := addArg args "min-width" (p_minWidth payload) in
  let args := addArg args "q" (p_quality payload) in
  let args := addArg args "cookie" (p_cookie payload) in
  let args := addArg args "same-origin" (p_sameOrigin payload) in
  let args := addArg args "max-images" (p_maxImages payload) in
  let args := addArg args "max-scrolls" (p_maxScrolls payload) in
  addArg args "headful" (p_headful payload).

(** ** The images directory *)

Definition safeImageName (raw : JSVal) : option string :=
  if negb (exists_ raw) then None
  else
    let trimmed := trim (toString raw) in
    let normalized := basename trimmed in
    if String.eqb normalized "" || String.eqb normalized "." || String.eqb normalized ".."
    then None
    else if negb (String.eqb normalized trimmed) then None
    else Some normalized.

(** The file system: what exists at a path. *)
Inductive Node := File (size : nat) | Dir.

#[global] Instance Node_eq_dec : EqDecision Node.
Proof. solve_decision. Defined.

Abbreviation FS := (gmap string Node).

Inductive UnlinkResult := Unlinked | ENOENT | OtherError (message : string).

Definition unlink (fs : FS) (p : string) : UnlinkResult * FS :=
  match fs !! p with
  | Some (File _) => (Unlinked, delete p fs)
  | Some Dir => (OtherError ("EISDIR: illegal operation on a directory, unlink '" +:+ p +:+ "'"), fs)
  | None => (ENOENT, fs)
  end.

Record DeleteResult := {
  ok : bool;
  name : JSVal;
  error : option string
}.

(** The result, the file system afterwards, and the paths handed to
    [fs.unlink] in call order. *)
Definition deleteImageByName (IMAGES_DIR : string) (fs : FS) (rawName : JSVal)
  : DeleteResult * FS * list string :=
  match safeImageName rawName with
  | None => ({| ok := false; name := rawName; error := Some "Nome file non valido" |}, fs, [])
  | Some name =>
      let fullPath := path_join IMAGES_DIR name in
      match unlink fs fullPath with
      | (Unlinked, fs') => ({| ok := true; name := JStr name; error := None |}, fs', [fullPath])
      | (ENOENT, fs') => ({| ok := false; name := JStr name; error := Some "File non trovato" |}, fs', [fullPath])
      | (OtherError m, fs') => ({| ok := false; name := JStr name; error := Some m |}, fs', [fullPath])
      end
  end.

(** [DELETE /api/images/:name], after [decodeURIComponent]. *)
Definition delete_one (IMAGES_DIR : string) (fs : FS) (decoded : string)
  : Z * DeleteResult * FS * list string :=
  let '(result, fs', calls) := deleteImageByName IMAGES_DIR fs (JStr decoded) in
  (if ok result then 200 else 400, result, fs', calls).

Inductive BatchResponse :=
| BatchBadRequest (error : string)
| BatchDone (ok : bool) (deleted failed : nat) (results : list DeleteResult).

Fixpoint delete_each (IMAGES_DIR : string) (fs : FS) (names : list string)
  : list DeleteResult * FS * list string :=
  match names with
  | [] => ([], fs, [])
  | n :: rest =>
      let '(r, fs1, c1) := deleteImageByName IMAGES_DIR fs (JStr n) in
      let '(rs, fs2, c2) := delete_each IMAGES_DIR fs1 rest in
      (r :: rs, fs2, c1 ++ c2)
  end.

(** [POST /api/images/delete-batch]; [names] is [req.body.names] when it is
    an array and [[]] otherwise. *)
Definition delete_batch (IMAGES_DIR : string) (fs : FS) (names : list JSVal)
  : BatchResponse * FS * list string :=
  match names with
  | [] => (BatchBadRequest "Lista immagini vuota", fs, [])
  | _ =>
      let unique :=
        set_of_list (filter (λ s, s ≠ "") (map (λ n, trim (toString n)) names)) in
      match unique with
      | [] => (BatchBadRequest "Nomi immagini non validi", fs, [])
      | _ =>
          let '(results, fs', calls) := delete_each IMAGES_DIR fs unique in
          let deleted := length (filter (λ r, ok r = true) results) in
          let failed := (length results - deleted)%nat in
          (BatchDone (bool_decide (failed = 0%nat)) deleted failed results, fs', calls)
      end
  end.

(** ** The activity record and the progress estimator *)

(** [lines.slice(-maxLines)]: the last [maxLines] entries; [-0] is [0], so
    all of them when [maxLines = 0]. *)
Definition slice_last {A} (maxLines : nat) (lines : list A) : list A :=
  match maxLines with
  | O => lines
  | _ => drop (length lines - maxLines) lines
  end.

(** [readTail] on the content of a file that could be read. *)
Definition readTail (raw : string) (maxLines : nat) : list string :=
  let lines := filter (λ s, s ≠ "") (split "010" raw) in
  slice_last maxLines lines.

Record ParsedLine := {
  timestamp : option Z;
  message : string
}.

Definition not_close_bracket (c : ascii) : bool := negb (Ascii.eqb c "]").

(** The regular expression of [parseLogLine]: an opening bracket, one or
    more characters other than a closing bracket, a closing bracket, one
    or more white spaces, then the rest of the line, which may hold no
    line terminator.  The result is the two captures. *)
Definition match_log_line (line : list ascii) : option (list ascii * list ascii) :=
  match line with
  | c :: rest =>
      if Ascii.eqb c "[" then
        let stamp := take_while not_close_bracket rest in
        match stamp, drop_while not_close_bracket rest with
        | _ :: _, _ :: after =>
            let body := drop_while is_white_space after in
            match take_while is_white_space after with
            | _ :: _ =>
                if forallb (λ c, negb (is_line_terminator c)) body
                then Some (stamp, body) else None
            | [] => None
            end
        | _, _ => None
        end
      else None
  | [] => None
  end.

(** [Date_parse] is [Date.parse]; [None] is NaN. *)
Definition parseLogLine (Date_parse : string → option Z) (line : string) : ParsedLine :=
  match match_log_line (chars line) with
  | None => {| timestamp := None; message := line |}
  | Some (stamp, body) =>
      {| timestamp := Date_parse (str stamp); message := str body |}
  end.

(** [/PINTEREST scroll=\d+\s+collected=(\d+)/] anchored at the head. *)
Definition scroll_here (l : list ascii) : option Z :=
  r ← strip_prefix (chars "PINTEREST scroll=") l;
  '(_, r) ← many1 is_digit r;
  '(_, r) ← many1 is_white_space r;
  r ← strip_prefix (chars "collected=") r;
  '(d, _) ← many1 is_digit r;
  Some (Number_digits d).

(** [/PINTEREST collected_total=(\d+)/] anchored at the head. *)
Definition total_here (l : list ascii) : option Z :=
  r ← strip_prefix (chars "PINTEREST collected_total=") l;
  '(d, _) ← many1 is_digit r;
  Some (Number_digits d).

(** [String.prototype.match] without the [g] flag: the leftmost match. *)
Fixpoint search (here : list ascii → option Z) (l : list ascii) : option Z :=
  match here l with
  | Some v => Some v
  | None => match l with
            | [] => None
            | _ :: l' => search here l'
            end
  end.

Definition scrollMatch (msg : string) : option Z := search scroll_here (chars msg).
Definition totalMatch (msg : string) : option Z := search total_here (chars msg).

Record JobState := {
  running : bool;
  pid : option Z;
  startedAt : option string;
  endedAt : option string;
  exitCode : option Z;
  lastError : option string;
  command : option string;
  payload : option Payload
}.

(** The module-level [state] when the server starts. *)
Definition initial_state : JobState :=
  {| running := false; pid := None; startedAt := None; endedAt := None;
     exitCode := None; lastError := None; command := None; payload := None |}.

Record Counters := {
  saved : nat; skipped : nat; failed : nat;
  collected : Z; collectedTotal : Z
}.

Definition zero_counters : Counters :=
  {| saved := 0; skipped := 0; failed := 0; collected := 0; collectedTotal := 0 |}.

(** The [continue] of the loop: a line stamped more than a second before
    the start.  A stamp of [0] is falsy and never skipped. *)
Definition before_start (startedAtMs : option Z) (parsed : ParsedLine) : bool :=
  match timestamp parsed, startedAtMs with
  | Some t, Some s => negb (t =? 0) && (t <? s - 1000)
  | _, _ => false
  end.

(** One turn of [for (const line of logs)]. *)
Definition count_line (Date_parse : string → option Z) (startedAtMs : option Z)
    (c : Counters) (line : string) : Counters :=
  let parsed := parseLogLine Date_parse line in
  if before_start startedAtMs parsed then c
  else
    let msg := message parsed in
    let c :=
      if startsWith msg "IMG saved" then
        {| saved := S (saved c); skipped := skipped c; failed := failed c;
           collected := collected c; collectedTotal := collectedTotal c |}
      else if startsWith msg "IMG skipped_small" then
        {| saved := saved c; skipped := S (skipped c); failed := failed c;
           collected := collected c; collectedTotal := collectedTotal c |}
      else if startsWith msg "IMG failed_non_image_or_status" || startsWith msg "IMG error" then
        {| saved := saved c; skipped := skipped c; failed := S (failed c);
           collected := collected c; collectedTotal := collectedTotal c |}
      else c in
    let c :=
      match scrollMatch msg with
      | Some n =>
          {| saved := saved c; skipped := skipped c; failed := failed c;
             collected := Z.max (collected c) n; collectedTotal := collectedTotal c |}
      | None => c
      end in
    match totalMatch msg with
    | Some n =>
        {| saved := saved c; skipped := skipped c; failed := failed c;
           collected := collected c; collectedTotal := Z.max (collectedTotal c) n |}
    | None => c
    end.

Record Progress := {
  pr_mode : JSVal;
  pr_processed : nat;
  pr_saved : nat;
  pr_skipped : nat;
  pr_failed : nat;
  pr_collected : Z;
  pr_target : option Z;
  pr_percent : option Z;
  pr_elapsedSec : option Z;
  pr_etaSec : option Z
}.

(** [payload.maxImages || 0] through [Number]; [None] is NaN. *)
Definition declared_max (p : Payload) : option Z :=
  toNumber (or_else (p_maxImages p) (JNum 0)).

(** The value of [target] after the [if (mode === 'pinterest')] block;
    [None] is NaN, for which every comparison is false. *)
Definition compute_target (mode : JSVal) (p : Payload) (c : Counters) : option Z :=
  match mode with
  | JStr "pinterest" =>
      if 0 <? collectedTotal c then Some (collectedTotal c)
      else if 0 <? collected c then
        match declared_max p with
        | Some t => Some (Z.max t (collected c))
        | None => None
        end
      else declared_max p
  | _ => Some 0
  end.

Definition positive_target (target : option Z) : option Z :=
  match target with
  | Some t => if 0 <? t then Some t else None
  | None => None
  end.

(** [logs] is the result of [readTail(ACTIVITY_LOG_PATH, 4000)] and [now]
    that of [Date.now()]. *)
Definition buildProgress (Date_parse : string → option Z) (now : Z)
    (state : JobState) (logs : list string) : option Progress :=
  match startedAt state with
  | None => None
  | Some started =>
      if String.eqb started "" then None
      else
        let startedAtMs := Date_parse started in
        let endedAtMs :=
          match endedAt state with
          | Some e => if String.eqb e "" then None else Date_parse e
          | None => None
          end in
        let nowMs :=
          match endedAtMs with
          | Some e => if e =? 0 then now else e
          | None => now
          end in
        let elapsedSec :=
          match startedAtMs with
          | Some s => Some (Z.max 0 (Math_round ((inject_Z (nowMs - s)) / 1000)))
          | None => None
          end in
        let payload := default empty_payload (payload state) in
        let mode := or_else (p_mode payload) (JStr "site") in
        let c := foldl (count_line Date_parse startedAtMs) zero_counters logs in
        let processed := (saved c + skipped c + failed c)%nat in
        let target := positive_target (compute_target mode payload c) in
        let percent :=
          match target with
          | Some t =>
              Some (Z.min 100 (Math_round ((inject_Z (Z.of_nat processed) / inject_Z t) * 100)))
          | None => None
          end in
        let etaSec :=
          match target, elapsedSec with
          | Some t, Some e =>
              if running state && (0 <? Z.of_nat processed) && (Z.of_nat processed <? t)
              then Some (Math_round ((inject_Z e / inject_Z (Z.of_nat processed))
                                     * inject_Z (t - Z.of_nat processed)))
              else None
          | _, _ => None
          end in
        let etaSec :=
          if negb (running state) && bool_decide (is_Some percent) then Some 0 else etaSec in
        Some {| pr_mode := mode; pr_processed := processed;
                pr_saved := saved c; pr_skipped := skipped c; pr_failed := failed c;
                pr_collected := collected c; pr_target := target; pr_percent := percent;
                pr_elapsedSec := elapsedSec; pr_etaSec := etaSec |}
  end.

(** ** The job state *)

(** What [spawn] does: it throws, or it returns a child.  A child that
    could not be started has no [pid] and reports the failure later through
    its [error] event. *)
Inductive SpawnOutcome :=
| SpawnThrows (message : string)
| Spawned (child_pid : option Z).

(** [startCrawler]; [now] is [new Date().toISOString()].  [None] is the
    exception of [spawn], thrown before any assignment to [state]. *)
Definition startCrawler (execPath now : string) (sp : SpawnOutcome)
    (payload : Payload) : option JobState :=
  let args := buildCrawlerArgs payload in
  match sp with
  | SpawnThrows _ => None
  | Spawned child_pid =>
      Some {| running := true;
              pid := child_pid;
              startedAt := Some now;
              endedAt := None;
              exitCode := None;
              lastError := None;
              command := Some (String.concat " " (execPath :: args));
              payload := Some payload |}
  end.

(** [child.on('error', ...)]. *)
Definition on_error (message : string) (state : JobState) : JobState :=
  {| running := running state; pid := pid state; startedAt := startedAt state;
     endedAt := endedAt state; exitCode := exitCode state;
     lastError := Some message;
     command := command state; payload := payload state |}.

(** [child.on('close', ...)]. *)
Definition on_close (code : option Z) (now : string) (state : JobState) : JobState :=
  {| running := false; pid := None; startedAt := startedAt state;
     endedAt := Some now; exitCode := code;
     lastError := lastError state;
     command := command state; payload := payload state |}.

Inductive StartResponse :=
| Conflict409 (error : string) (snapshot : JobState)
| Ok200 (snapshot : JobState)
| Thrown (message : string).

(** [POST /api/crawl/start]; [body] is [req.body]. *)
Definition post_crawl_start (execPath now : string) (sp : SpawnOutcome)
    (state : JobState) (body : option Payload) : StartResponse * JobState :=
  if running state then (Conflict409 "Crawler gia in esecuzione" state, state)
  else
    let payload := default empty_payload body in
    match startCrawler execPath now sp payload with
    | Some state' => (Ok200 state', state')
    | None =>
        (Thrown (match sp with SpawnThrows m => m | Spawned _ => "" end), state)
    end.

(** What can happen to the job state. *)
Inductive Event :=
| StartRequest (body : option Payload) (now : string) (sp : SpawnOutcome)
| ChildError (message : string)
| ChildClose (code : option Z) (now : string).

Definition step (execPath : string) (state : JobState) (e : Event) : JobState :=
  match e with
  | StartRequest body now sp => snd (post_crawl_start execPath now sp state body)
  | ChildError m => on_error m state
  | ChildClose code now => on_close code now state
  end.

Definition run_events (execPath : string) (state : JobState) (es : list Event) : JobState :=
  foldl (step execPath) state es.

(** ** Notions used in the properties *)

(** A path that names an entry directly inside [dir]. *)
Definition direct_child (dir p : string) : Prop :=
  ∃ n, p = path_join dir n ∧ n ≠ "" ∧ n ≠ "." ∧ n ≠ ".." ∧ "/"%char ∉ chars n.

(** A name that is not a plain file base name once trimmed. *)
Definition not_plain (raw : string) : Prop :=
  let t := trim raw in t = "" ∨ t = "." ∨ t = ".." ∨ basename t ≠ t.

Definition invalid_name (raw : JSVal) : DeleteResult :=
  {| ok := false; name := raw; error := Some "Nome file non valido" |}.

(** The specification's wording of a launch failure, for a unit that could
    not be started ([spawn] returns a child without [pid], whose [error]
    event follows): the job state never has [running = true] and the error
    is recorded. *)
Definition launch_failure_skips_running (execPath : string) : Prop :=
  ∀ (body : option Payload) (now message : string),
    let st1 := step execPath initial_state (StartRequest body now (Spawned None)) in
    let st2 := step execPath st1 (ChildError message) in
    running st1 = false ∧ running st2 = false ∧ lastError st2 = Some message.

Definition is_close (e : Event) : bool :=
  match e with
  | ChildClose _ _ => true
  | _ => false
  end.

(** The lines of the record that the estimator takes into account. *)
Definition considered (Date_parse : string → option Z) (startedAtMs : option Z)
    (line : string) : bool :=
  negb (before_start startedAtMs (parseLogLine Date_parse line)).

Definition is_saved (msg : string) : bool := startsWith msg "IMG saved".
Definition is_skipped_small (msg : string) : bool := startsWith msg "IMG skipped_small".
Definition is_failure (msg : string) : bool :=
  startsWith msg "IMG failed_non_image_or_status" || startsWith msg "IMG error".

(** How many considered lines have a message of a kind. *)
Definition count_lines (kind : string → bool) (Date_parse : string → option Z)
    (startedAtMs : option Z) (logs : list string) : nat :=
  length (List.filter
            (λ line, considered Date_parse startedAtMs line
                     && kind (message (parseLogLine Date_parse line))) logs).

(** The largest number that considered lines give for a pattern, [0] when
    none does. *)
Definition max_lines (pattern : string → option Z) (Date_parse : string → option Z)
    (startedAtMs : option Z) (logs : list string) : Z :=
  foldr (λ line acc,
           if considered Date_parse startedAtMs line then
             match pattern (message (parseLogLine Date_parse line)) with
             | Some n => Z.max n acc
             | None => acc
             end
           else acc) 0 logs.


(** The mode that [buildProgress] derives from the job state. *)
Definition mode_of (state : JobState) : JSVal :=
  or_else (p_mode (default empty_payload (payload state))) (JStr "site").

(** The target in the specification's words: the declared maximum,
    overridden upward by the most recent collection total. *)
Definition spec_target (declared : Z) (most_recent_total : option Z) : Z :=
  match most_recent_total with
  | Some total => Z.max declared total
  | None => declared
  end.

Definition tick (b : bool) : nat := if b then 1 else 0.

(** The number of the last considered line that announces a collection
    total, if there is one. *)
Definition most_recent_total (Date_parse : string → option Z) (startedAtMs : option Z)
    (logs : list string) : option Z :=
  last (omap (λ line,
                if considered Date_parse startedAtMs line
                then totalMatch (message (parseLogLine Date_parse line))
                else None) logs).

(** The specification's wording of the target in scroll-discovery mode,
    the override taken as raising the declared maximum. *)
Definition target_overridden_upward (Date_parse : string → option Z) : Prop :=
  ∀ (now : Z) (state : JobState) (logs : list string) (started : string) (declared : Z),
    startedAt state = Some started → started ≠ "" →
    mode_of state = JStr "pinterest" →
    declared_max (default empty_payload (payload state)) = Some declared →
    ∃ pr, buildProgress Date_parse now state logs = Some pr ∧
      pr_target pr =
        Some (spec_target declared (most_recent_total Date_parse (Date_parse started) logs)).

(** The same wording, the override taken as replacing the declared maximum
    by the most recent total; a target that is not positive is reported as
    null. *)
Definition target_overridden_by_total (Date_parse : string → option Z) : Prop :=
  ∀ (now : Z) (state : JobState) (logs : list string) (started : string) (declared : Z),
    startedAt state = Some started → started ≠ "" →
    mode_of state = JStr "pinterest" →
    declared_max (default empty_payload (payload state)) = Some declared →
    ∃ pr, buildProgress Date_parse now state logs = Some pr ∧
      pr_target pr =
        positive_target
          (Some (default declared (most_recent_total Date_parse (Date_parse started) logs))).

End Server.

(* ===================================================================== *)
(** * crawler.js: the command line and the logger                         *)
(* ===================================================================== *)

Module Cli.
Import JS.

(** A value of the object that [parseArgs] returns: [true] or a string. *)
Inductive ArgVal :=
| ATrue
| AStr (s : string).

(** [String(v)] *)
Definition arg_string (v : ArgVal) : string :=
  match v with
  | ATrue => "true"
  | AStr s => s
  end.

Definition arg_truthy (v : ArgVal) : bool :=
  match v with
  | ATrue => true
  | AStr s => negb (String.eqb s "")
  end.

(** [token.slice(2)] *)
Definition slice2 (token : string) : string := str (drop 2 (chars token)).

(** The loop of [parseArgs] from the token at hand on; [out] is the object
    built so far.  A flag takes the next token as its value unless that
    token is missing, empty or a flag itself. *)
Fixpoint parseArgs_from (argv : list string) (out : gmap string ArgVal)
  : gmap string ArgVal :=
  match argv with
  | [] => out
  | token :: rest =>
      if negb (startsWith token "--") then parseArgs_from rest out
      else
        let key := slice2 token in
        match rest with
        | [] => <[key := ATrue]> out
        | next :: rest' =>
            if String.eqb next "" || startsWith next "--"
            then parseArgs_from rest (<[key := ATrue]> out)
            else parseArgs_from rest' (<[key := AStr next]> out)
        end
  end.

Definition parseArgs (argv : list string) : gmap string ArgVal :=
  parseArgs_from argv ∅.

(** [args[key] ? String(args[key]) : ''] *)
Definition option_string (args : gmap string ArgVal) (key : string) : string :=
  match args !! key with
  | Some v => if arg_truthy v then arg_string v else ""
  | None => ""
  end.

(** [String(args.mode || 'site').toLowerCase()] *)
Definition option_mode (args : gmap string ArgVal) : string :=
  toLowerCase
    (match args !! "mode" with
     | Some v => if arg_truthy v then arg_string v else "site"
     | None => "site"
     end).

(** The two checks of [run] that end the process with the usage text. *)
Definition usage_error (args : gmap string ArgVal) : bool :=
  let mode := option_mode args in
  let startUrl := option_string args "url" in
  let query := option_string args "query" in
  (String.eqb mode "site" && String.eqb startUrl "")
  || (String.eqb mode "pinterest" && String.eqb startUrl "" && String.eqb query "").

(** [args['same-origin'] === undefined ? true : ... !== 'false'] *)
Definition option_sameOriginOnly (args : gmap string ArgVal) : bool :=
  match args !! "same-origin" with
  | None => true
  | Some v => negb (String.eqb (toLowerCase (arg_string v)) "false")
  end.

(** The line that [createLogger] writes for a message at a time [iso], the
    result of [new Date().toISOString()]. *)
Definition log_line (iso message : string) : string :=
  "[" +:+ iso +:+ "] " +:+ message.

Definition newline : string := String "010" "".

(** [fs.appendFile(filePath, line + '\n')] on the content of the file. *)
Definition append_line (content line : string) : string :=
  content +:+ line +:+ newline.

(** The fields of a payload in the order in which [buildCrawlerArgs] hands
    them to [addArg], under the keys it gives them. *)
Definition crawler_fields (payload : Server.Payload) : list (string * Server.JSVal) :=
  [("mode", Server.or_else (Server.p_mode payload) (Server.JStr "site"));
   ("url", Server.p_url payload);
   ("query", Server.p_query payload);
   ("depth", Server.p_depth payload);
   ("min-width", Server.p_minWidth payload);
   ("q", Server.p_quality payload);
   ("cookie", Server.p_cookie payload);
   ("same-origin", Server.p_sameOrigin payload);
   ("max-images", Server.p_maxImages payload);
   ("max-scrolls", Server.p_maxScrolls payload);
   ("headful", Server.p_headful payload)].

(** What the crawler reads for a field that the server passes on. *)
Definition handed_over (v : Server.JSVal) : option ArgVal :=
  if Server.exists_ v then Some (AStr (Server.toString v)) else None.

(** A field that, when passed on, is not itself read as a flag. *)
Definition not_a_flag (v : Server.JSVal) : Prop :=
  Server.exists_ v = true → startsWith (Server.toString v) "--" = false.

End Cli.

(* ===================================================================== *)
(** * crawler.js: notions for the outcome of a candidate                  *)
(* ===================================================================== *)

Module Outcome.
Import JS Log Crawler.

(** The state of a run that has seen nothing, on an empty store. *)
Definition blank : Ingest := download_start [] ∅ [].

(** The line that the [try] block writes for a location: the one it writes
    from the blank state. *)
Definition outcome_line (E : Env) (outputDir : string) (minWidth quality : Z)
    (imageUrl : string) : option Activity :=
  last (activity (ingest E outputDir minWidth quality imageUrl blank)).

(** The write that the [try] block makes for a location, if it makes one. *)
Definition outcome_write (E : Env) (outputDir : string) (minWidth quality : Z)
    (imageUrl : string) : option (string * string * string) :=
  last (written (ingest E outputDir minWidth quality imageUrl blank)).

Definition is_img_saved (a : Activity) : bool :=
  match a with ImgSaved _ _ _ _ _ _ => true | _ => false end.
Definition is_img_skipped (a : Activity) : bool :=
  match a with ImgSkippedSmall _ _ _ => true | _ => false end.
Definition is_img_failed (a : Activity) : bool :=
  match a with ImgFailedNonImage _ | ImgError _ _ => true | _ => false end.

Definition saved_path (a : Activity) : option string :=
  match a with ImgSaved path _ _ _ _ _ => Some path | _ => None end.

Definition count_if {A} (f : A → bool) (l : list A) : nat := length (List.filter f l).

(** [quality] brought into the range of the encoders. *)
Definition clamp_quality (quality : Z) : Z := Z.max 1 (Z.min 100 quality).

(** The lower-cased decoded type, as [recompressImage] looks at it. *)
Definition type_key (imageType : option string) : string :=
  toLowerCase (default "" (or_str imageType None)).

End Outcome.

(*MORE_DEFS*)

Module Fixtures.
Import JS.

(** An images directory with two files and a sub-directory. *)
Definition images_dir : string := "/app/data/site/images".
Definition images_fs : gmap string Server.Node :=
  {[ "/app/data/site/images/0a1b2c3d4e-640x480-cat.jpg" := Server.File 1200;
     "/app/data/site/images/old" := Server.Dir;
     "/app/data/site/crawl-report.json" := Server.File 300 ]}.

(** The names of a batch request. *)
Definition batch_names : list Server.JSVal :=
  [Server.JStr "0a1b2c3d4e-640x480-cat.jpg"; Server.JStr " ../crawl-report.json "].

(** A job that is running. *)
Definition running_state : Server.JobState :=
  {| Server.running := true; Server.pid := Some 4242;
     Server.startedAt := Some "2024-05-01T10:00:00.000Z"; Server.endedAt := None;
     Server.exitCode := None; Server.lastError := None;
     Server.command := Some "/usr/bin/node src/crawler.js --mode site --url https://example.com";
     Server.payload := Some {| Server.p_mode := Server.JStr "site";
                               Server.p_url := Server.JStr "https://example.com";
                               Server.p_query := Server.JUndef; Server.p_depth := Server.JUndef;
                               Server.p_minWidth := Server.JUndef; Server.p_quality := Server.JUndef;
                               Server.p_cookie := Server.JUndef; Server.p_sameOrigin := Server.JUndef;
                               Server.p_maxImages := Server.JUndef; Server.p_maxScrolls := Server.JUndef;
                               Server.p_headful := Server.JUndef |} |}.

(** [Date.parse] on the time stamps of the examples. *)
Definition clock : list (string * Z) :=
  [("2024-05-01T09:00:00.000Z", 1714554000000);
   ("2024-05-01T10:00:00.000Z", 1714557600000);
   ("2024-05-01T10:00:05.000Z", 1714557605000);
   ("2024-05-01T10:00:07.000Z", 1714557607000);
   ("2024-05-01T10:00:09.000Z", 1714557609000);
   ("2024-05-01T10:00:11.000Z", 1714557611000);
   ("2024-05-01T10:00:13.000Z", 1714557613000)].

Definition date_parse (s : string) : option Z :=
  snd <$> List.find (λ e, String.eqb (fst e) s) clock.

Definition pinterest_payload (maxImages : Z) : Server.Payload :=
  {| Server.p_mode := Server.JStr "pinterest"; Server.p_url := Server.JUndef;
     Server.p_query := Server.JStr "travel photography"; Server.p_depth := Server.JUndef;
     Server.p_minWidth := Server.JNum 300; Server.p_quality := Server.JNum 70;
     Server.p_cookie := Server.JUndef; Server.p_sameOrigin := Server.JUndef;
     Server.p_maxImages := Server.JNum maxImages; Server.p_maxScrolls := Server.JNum 35;
     Server.p_headful := Server.JBool false |}.

(** A scroll-discovery job started at ten o'clock. *)
Definition pinterest_job (maxImages : Z) : Server.JobState :=
  {| Server.running := true; Server.pid := Some 4242;
     Server.startedAt := Some "2024-05-01T10:00:00.000Z"; Server.endedAt := None;
     Server.exitCode := None; Server.lastError := None;
     Server.command := Some "/usr/bin/node src/crawler.js --mode pinterest";
     Server.payload := Some (pinterest_payload maxImages) |}.

(** An activity record: a line of an earlier run, then the run of
    [pinterest_job] with three images saved and one skipped. *)
Definition progress_logs : list string :=
  ["[2024-05-01T09:00:00.000Z] IMG saved path=/app/data/site/images/old.jpg width=800 height=600 bytesBefore=10 bytesAfter=9 recompressed=true";
   "[2024-05-01T10:00:00.000Z] RUN start mode=pinterest minWidth=300 quality=70";
   "[2024-05-01T10:00:00.000Z] PINTEREST open https://www.pinterest.com/search/pins/?q=travel%20photography";
   "[2024-05-01T10:00:05.000Z] PINTEREST scroll=1 collected=8 adsSkipped=2";
   "[2024-05-01T10:00:05.000Z] PINTEREST collected_total=8";
   "[2024-05-01T10:00:07.000Z] IMG saved path=/app/data/site/images/a.jpg width=800 height=600 bytesBefore=10 bytesAfter=9 recompressed=true";
   "[2024-05-01T10:00:09.000Z] IMG skipped_small url=https://i.pinimg.com/originals/b.jpg width=120 minWidth=300";
   "[2024-05-01T10:00:11.000Z] IMG saved path=/app/data/site/images/c.jpg width=800 height=600 bytesBefore=10 bytesAfter=9 recompressed=true";
   "[2024-05-01T10:00:13.000Z] IMG saved path=/app/data/site/images/d.jpg width=800 height=600 bytesBefore=10 bytesAfter=9 recompressed=true"].

(** A record in which discovery ended without any image. *)
Definition empty_logs : list string :=
  ["[2024-05-01T10:00:00.000Z] RUN start mode=pinterest minWidth=300 quality=70";
   "[2024-05-01T10:00:05.000Z] PINTEREST collected_total=0"].

(** A record in which discovery ended with five images. *)
Definition short_logs : list string :=
  ["[2024-05-01T10:00:00.000Z] RUN start mode=pinterest minWidth=300 quality=70";
   "[2024-05-01T10:00:05.000Z] PINTEREST scroll=1 collected=5 adsSkipped=0";
   "[2024-05-01T10:00:05.000Z] PINTEREST collected_total=5"].

(** ** A URL parser given by a table *)

Record Parsed := {
  u_protocol : string;
  u_authority : string;
  u_origin : string;
  u_hostname : string;
  u_pathname : string;
  u_hash : string
}.

Definition web_url (scheme host path hash : string) : Parsed :=
  {| u_protocol := scheme +:+ ":"; u_authority := "//" +:+ host;
     u_origin := scheme +:+ "://" +:+ host; u_hostname := host;
     u_pathname := path; u_hash := hash |}.

Definition opaque_url (protocol path : string) : Parsed :=
  {| u_protocol := protocol; u_authority := ""; u_origin := "null"; u_hostname := "";
     u_pathname := path; u_hash := "" |}.

Definition parsed_href (u : Parsed) : string :=
  u_protocol u +:+ u_authority u +:+ u_pathname u +:+ u_hash u.

Definition table_new_URL (table : list (string * option string * Parsed))
    (raw : string) (base : option string) : Try Parsed :=
  match List.find (λ e, bool_decide (e.1 = (raw, base))) table with
  | Some e => Ret e.2
  | None => Throw "Invalid URL"
  end.

Definition table_lib (table : list (string * option string * Parsed)) : Url.Lib :=
  {| Url.URL := Parsed;
     Url.new_URL := table_new_URL table;
     Url.href := parsed_href;
     Url.protocol := u_protocol;
     Url.origin := u_origin;
     Url.hostname := u_hostname;
     Url.pathname := u_pathname;
     Url.set_hash h u :=
       {| u_protocol := u_protocol u; u_authority := u_authority u;
          u_origin := u_origin u; u_hostname := u_hostname u;
          u_pathname := u_pathname u;
          u_hash := if String.eqb h "" then "" else "#" +:+ h |};
     Url.set_pathname p u :=
       {| u_protocol := u_protocol u; u_authority := u_authority u;
          u_origin := u_origin u; u_hostname := u_hostname u;
          u_pathname := p; u_hash := u_hash u |} |}.

(** ** A site of two pages *)

Definition root : string := "https://site.test/".
Definition about : string := "https://site.test/about".

Definition site_urls : list (string * option string * Parsed) :=
  [ (root, None, web_url "https" "site.test" "/" "");
    (about, None, web_url "https" "site.test" "/about" "");
    ("https://site.test/about#team", None, web_url "https" "site.test" "/about" "#team");
    ("https://other.test/", None, web_url "https" "other.test" "/" "");
    ("mailto:info@site.test", None, opaque_url "mailto:" "info@site.test");
    ("data:image/gif;base64,R0lGOD", None, opaque_url "data:" "image/gif;base64,R0lGOD");
    ("https://site.test/img/a.jpg", None, web_url "https" "site.test" "/img/a.jpg" "");
    ("https://site.test/b.png", None, web_url "https" "site.test" "/b.png" "");
    ("https://site.test/img/c.webp", None, web_url "https" "site.test" "/img/c.webp" "");
    ("/img/a.jpg", Some root, web_url "https" "site.test" "/img/a.jpg" "");
    ("b.png", Some root, web_url "https" "site.test" "/b.png" "");
    ("/img/c.webp", Some root, web_url "https" "site.test" "/img/c.webp" "");
    ("data:image/gif;base64,R0lGOD", Some root, opaque_url "data:" "image/gif;base64,R0lGOD");
    ("/about#team", Some root, web_url "https" "site.test" "/about" "#team");
    ("https://other.test/", Some root, web_url "https" "other.test" "/" "");
    ("mailto:info@site.test", Some root, opaque_url "mailto:" "info@site.test");
    ("/", Some root, web_url "https" "site.test" "/" "");
    ("/", Some about, web_url "https" "site.test" "/" "");
    ("/img/a.jpg", Some about, web_url "https" "site.test" "/img/a.jpg" "") ].

Definition image_el (src : string) : Crawler.ImgEl :=
  {| Crawler.src := Some src; Crawler.data_src := None; Crawler.data_original := None |}.

Definition lazy_el (data_src : string) : Crawler.ImgEl :=
  {| Crawler.src := None; Crawler.data_src := Some data_src; Crawler.data_original := None |}.

Definition site_responses : list (string * Crawler.Response) :=
  [ (root, {| Crawler.statusCode := 200;
              Crawler.content_type := Some "text/html; charset=utf-8";
              Crawler.body := "<index>" |});
    (about, {| Crawler.statusCode := 200; Crawler.content_type := Some "text/html";
               Crawler.body := "<about>" |});
    ("https://site.test/img/a.jpg",
     {| Crawler.statusCode := 200; Crawler.content_type := Some "image/jpeg";
        Crawler.body := "jpeg 800x600" |});
    ("https://site.test/b.png",
     {| Crawler.statusCode := 200; Crawler.content_type := Some "image/png";
        Crawler.body := "png 50x50" |});
    ("https://site.test/img/c.webp",
     {| Crawler.statusCode := 200; Crawler.content_type := Some "IMAGE/WEBP";
        Crawler.body := "webp 640x480" |}) ].

Definition site_documents : list (string * Crawler.Document) :=
  [ ("<index>",
     {| Crawler.imgs := [image_el "/img/a.jpg"; lazy_el "b.png"; image_el "/img/c.webp";
                         image_el "data:image/gif;base64,R0lGOD"; image_el "/img/a.jpg"];
        Crawler.anchors := ["/about#team"; "https://other.test/"; "mailto:info@site.test";
                            "/"; ""] |});
    ("<about>",
     {| Crawler.imgs := [image_el "/img/a.jpg"]; Crawler.anchors := ["/"] |}) ].

Definition site_images : list (string * Crawler.ImageInfo) :=
  [ ("jpeg 800x600",
     {| Crawler.width := Some 800; Crawler.height := Some 600; Crawler.type := Some "jpg" |});
    ("png 50x50",
     {| Crawler.width := Some 50; Crawler.height := Some 50; Crawler.type := Some "png" |});
    ("webp 640x480",
     {| Crawler.width := Some 640; Crawler.height := Some 480; Crawler.type := Some "webp" |}) ].

Definition assoc {A} (table : list (string * A)) (key : string) : option A :=
  snd <$> List.find (λ e, String.eqb (fst e) key) table.

Definition site : Crawler.Env :=
  {| Crawler.url_lib := table_lib site_urls;
     Crawler.client_get url :=
       match assoc site_responses url with
       | Some res => Ret res
       | None => Throw "getaddrinfo ENOTFOUND"
       end;
     Crawler.cheerio_load html :=
       default {| Crawler.imgs := []; Crawler.anchors := [] |} (assoc site_documents html);
     Crawler.imageSize buffer :=
       match assoc site_images buffer with
       | Some info => Ret info
       | None => Throw "unsupported file type: undefined"
       end;
     Crawler.sharp_encode type quality buffer := Ret ("q" +:+ pretty quality +:+ " " +:+ buffer);
     Crawler.writeFile_error path := None;
     Crawler.sha1_hex s :=
       if String.eqb s "https://site.test/img/a.jpg"
       then "3c1bb0cd5d67dddc02fae50bf56d3a3a4cbc7204"
       else if String.eqb s "https://site.test/img/c.webp"
       then "9a0364b9e99bb480dd25e1f0284c8555a1f6e4c1"
       else "da39a3ee5e6b4b0d3255bfef95601890afd80709" |}.

Definition output_dir : string := "/app/data/site/images".

(** The candidates of the index page, one of them twice. *)
Definition site_candidates : list string :=
  ["https://site.test/img/a.jpg"; "https://site.test/b.png";
   "https://site.test/img/c.webp"; "https://site.test/img/a.jpg"].

(** ** A gallery that renders ten pins and a sponsored one on every pass *)

Definition pin_names : list string :=
  ["p01"; "p02"; "p03"; "p04"; "p05"; "p06"; "p07"; "p08"; "p09"; "p10"].

Definition pin_thumb (name : string) : string :=
  "https://i.pinimg.com/236x/" +:+ name +:+ ".jpg".

Definition pin_urls : list (string * option string * Parsed) :=
  map (λ name, (pin_thumb name, None,
                web_url "https" "i.pinimg.com" ("/236x/" +:+ name +:+ ".jpg") ""))
      ("promo" :: pin_names).

Definition pin_el (name : string) : Pinterest.ImgElement :=
  {| Pinterest.container_text := Some "Saved by Ann";
     Pinterest.srcset := Some (pin_thumb name +:+ " 1x, " +:+ pin_thumb name +:+ " 2x");
     Pinterest.currentSrc := pin_thumb name;
     Pinterest.src_attr := Some (pin_thumb name);
     Pinterest.naturalWidth := 236; Pinterest.naturalHeight := 354 |}.

Definition promo_el : Pinterest.ImgElement :=
  {| Pinterest.container_text := Some "Sponsored by Acme";
     Pinterest.srcset := None;
     Pinterest.currentSrc := pin_thumb "promo";
     Pinterest.src_attr := Some (pin_thumb "promo");
     Pinterest.naturalWidth := 236; Pinterest.naturalHeight := 354 |}.

Definition gallery : Pinterest.Env :=
  {| Pinterest.url_lib := table_lib pin_urls;
     Pinterest.render n := promo_el :: map pin_el pin_names;
     Pinterest.encodeURIComponent s := s;
     Pinterest.consent_visible := false |}.

(*MORE_FIXTURES*)
End Fixtures.

(* ===================================================================== *)
(** * Properties                                                          *)
(* ===================================================================== *)

(** ** Strings and ordered sets *)

Module JSFacts.
Import JS.

Lemma str_chars s : str (chars s) = s.
Proof. apply String.string_of_list_ascii_of_string. Qed.

Lemma chars_str l : chars (str l) = l.
Proof. apply String.list_ascii_of_string_of_list_ascii. Qed.

Lemma chars_inj s1 s2 : chars s1 = chars s2 → s1 = s2.
Proof. intros H. rewrite <- (str_chars s1), <- (str_chars s2). by rewrite H. Qed.

Lemma chars_app s1 s2 : chars (s1 +:+ s2) = chars s1 ++ chars s2.
Proof.
  unfold chars. induction s1 as [|c s1 IH]; [done|].
  change (String c s1 +:+ s2) with (String c (s1 +:+ s2)). simpl. by rewrite IH.
Qed.

Lemma take_while_Forall {A} (p : A → bool) l : Forall (λ x, p x = true) (take_while p l).
Proof.
  induction l as [|x l IH]; simpl; [constructor|].
  destruct (p x) eqn:Hp; constructor; done.
Qed.

Lemma take_drop_while {A} (p : A → bool) l : take_while p l ++ drop_while p l = l.
Proof.
  induction l as [|x l IH]; simpl; [done|].
  destruct (p x); simpl; [by rewrite IH|done].
Qed.

Lemma startsWith_l_app p l : startsWith_l (p ++ l) p = true.
Proof.
  induction p as [|a p IH]; simpl; [done|].
  by rewrite Ascii.eqb_refl.
Qed.

Lemma startsWith_l_spec l p : startsWith_l l p = true ↔ ∃ r, l = p ++ r.
Proof.
  revert l. induction p as [|a p IH]; intros l; simpl.
  - split; eauto.
  - destruct l as [|b l]; simpl.
    + split; [done|]. by intros [r Hr].
    + destruct (Ascii.eqb_spec a b) as [->|Hne].
      * rewrite IH. split; intros [r Hr]; exists r; simplify_eq/=; done.
      * split; [done|]. intros [r Hr]. simplify_eq/=.
Qed.

Lemma includes_l_spec l k : includes_l l k = true ↔ ∃ a b, l = a ++ k ++ b.
Proof.
  induction l as [|c l IH]; simpl.
  - rewrite orb_false_r, startsWith_l_spec. split.
    + intros [r Hr]. exists [], r. done.
    + intros (a & b & Hab). destruct a; simplify_eq/=; eauto.
  - rewrite orb_true_iff, IH, startsWith_l_spec. split.
    + intros [[r Hr]|(a & b & ->)].
      * exists [], r. done.
      * exists (c :: a), b. done.
    + intros (a & b & Hab). destruct a as [|x a]; simplify_eq/=.
      * left. eauto.
      * right. eauto.
Qed.

Lemma elem_of_set_add `{EqDecision A} (x y : A) s : y ∈ set_add x s ↔ y = x ∨ y ∈ s.
Proof.
  unfold set_add. destruct (decide (x ∈ s)).
  - split; [by right|]. intros [->|]; done.
  - rewrite elem_of_app, list_elem_of_singleton. tauto.
Qed.

Lemma NoDup_set_add `{EqDecision A} (x : A) s : NoDup s → NoDup (set_add x s).
Proof.
  intros Hs. unfold set_add. destruct (decide (x ∈ s)); [done|].
  apply NoDup_app. split_and!; [done| |apply NoDup_singleton].
  intros y Hy ->%list_elem_of_singleton. done.
Qed.

Lemma length_set_add `{EqDecision A} (x : A) s :
  length (set_add x s) = if decide (x ∈ s) then length s else S (length s).
Proof.
  unfold set_add. destruct (decide (x ∈ s)); [done|].
  rewrite length_app. simpl. lia.
Qed.

Lemma set_of_list_from `{EqDecision A} (l s : list A) :
  NoDup s →
  NoDup (foldl (λ s x, set_add x s) s l) ∧
  ∀ y, y ∈ foldl (λ s x, set_add x s) s l ↔ y ∈ s ∨ y ∈ l.
Proof.
  revert s. induction l as [|x l IH]; intros s Hs; simpl.
  - split; [done|]. intros y. rewrite elem_of_nil. tauto.
  - destruct (IH (set_add x s) (NoDup_set_add x s Hs)) as [Hnd Hel].
    split; [done|]. intros y. rewrite Hel, elem_of_set_add, elem_of_cons. tauto.
Qed.

Lemma NoDup_set_of_list `{EqDecision A} (l : list A) : NoDup (set_of_list l).
Proof. apply (set_of_list_from l []). constructor. Qed.

Lemma elem_of_set_of_list `{EqDecision A} (l : list A) y : y ∈ set_of_list l ↔ y ∈ l.
Proof.
  unfold set_of_list. destruct (set_of_list_from l [] (NoDup_nil_2)) as [_ H].
  rewrite H, elem_of_nil. tauto.
Qed.

End JSFacts.


(** ** server.js: deletion *)

Module DeleteFacts.
Import JS JSFacts Server.

Lemma basename_no_slash l : "/"%char ∉ basename_l l.
Proof.
  unfold basename_l. rewrite list_elem_of_In, <- in_rev, <- list_elem_of_In.
  intros Hin.
  pose proof (take_while_Forall (λ c, negb (is_slash c)) (drop_while is_slash (rev l))) as HF.
  rewrite Forall_forall in HF. specialize (HF _ Hin). done.
Qed.

Lemma eqb_false_ne (a b : string) : String.eqb a b = false → a ≠ b.
Proof. by intros H%String.eqb_neq. Qed.

(** What [safeImageName] accepts. *)
Lemma safeImageName_Some raw n :
  safeImageName raw = Some n →
  n = trim (toString raw) ∧ basename n = n ∧
  n ≠ "" ∧ n ≠ "." ∧ n ≠ ".." ∧ "/"%char ∉ chars n.
Proof.
  unfold safeImageName. intros H.
  destruct (negb (exists_ raw)); [done|].
  destruct (String.eqb (basename (trim (toString raw))) "") eqn:E1; [done|].
  destruct (String.eqb (basename (trim (toString raw))) ".") eqn:E2; [done|].
  destruct (String.eqb (basename (trim (toString raw))) "..") eqn:E3; [done|].
  destruct (String.eqb (basename (trim (toString raw))) (trim (toString raw))) eqn:E4;
    simpl in H; [|done].
  apply String.eqb_eq in E4. simplify_eq. rewrite E4 in *.
  apply eqb_false_ne in E1, E2, E3. split_and!; try done.
  rewrite <- E4 at 1. unfold basename. rewrite chars_str. apply basename_no_slash.
Qed.

(** What it refuses. *)
Lemma safeImageName_not_plain raw : not_plain raw → safeImageName (JStr raw) = None.
Proof.
  unfold not_plain. intros H.
  destruct (safeImageName (JStr raw)) as [n|] eqn:E; [|done].
  apply safeImageName_Some in E as (-> & Hb & H1 & H2 & H3 & _). simpl in *.
  destruct H as [?|[?|[?|?]]]; done.
Qed.

Lemma deleteImageByName_calls dir fs raw p :
  p ∈ (deleteImageByName dir fs raw).2 → direct_child dir p.
Proof.
  unfold deleteImageByName.
  destruct (safeImageName raw) as [n|] eqn:E; simpl; [|by intros ?%elem_of_nil].
  apply safeImageName_Some in E as (_ & _ & H1 & H2 & H3 & H4).
  unfold unlink. destruct (fs !! path_join dir n) as [[]|]; simpl;
    intros ->%list_elem_of_singleton; exists n; done.
Qed.

Lemma deleteImageByName_fs dir fs raw q :
  (deleteImageByName dir fs raw).1.2 !! q ≠ fs !! q → direct_child dir q.
Proof.
  unfold deleteImageByName.
  destruct (safeImageName raw) as [n|] eqn:E; simpl; [|done].
  apply safeImageName_Some in E as (_ & _ & H1 & H2 & H3 & H4).
  unfold unlink. destruct (fs !! path_join dir n) as [[]|] eqn:El; simpl; try done.
  intros Hq. destruct (decide (path_join dir n = q)) as [<-|Hne].
  - exists n. done.
  - rewrite lookup_delete_ne in Hq; done.
Qed.

Lemma delete_each_calls dir names : ∀ fs p,
  p ∈ (delete_each dir fs names).2 → direct_child dir p.
Proof.
  induction names as [|n names IH]; intros fs p; simpl; [by intros ?%elem_of_nil|].
  pose proof (deleteImageByName_calls dir fs (JStr n) p) as H1.
  destruct (deleteImageByName dir fs (JStr n)) as [[r fs1] c1].
  specialize (IH fs1 p). destruct (delete_each dir fs1 names) as [[rs fs2] c2].
  simpl in *. rewrite elem_of_app. intros [?|?]; eauto.
Qed.

Lemma delete_each_fs dir names : ∀ fs q,
  (delete_each dir fs names).1.2 !! q ≠ fs !! q → direct_child dir q.
Proof.
  induction names as [|n names IH]; intros fs q; simpl; [done|].
  pose proof (deleteImageByName_fs dir fs (JStr n) q) as H1.
  destruct (deleteImageByName dir fs (JStr n)) as [[r fs1] c1].
  specialize (IH fs1 q). destruct (delete_each dir fs1 names) as [[rs fs2] c2].
  simpl in *. intros Hq.
  destruct (decide (fs1 !! q = fs !! q)) as [Heq|Hne]; [|eauto].
  apply IH. by rewrite Heq.
Qed.

(** Every name of the list gets its result, in order. *)
Lemma delete_each_results dir names : ∀ fs n,
  n ∈ names → not_plain n → invalid_name (JStr n) ∈ (delete_each dir fs names).1.1.
Proof.
  induction names as [|m names IH]; intros fs n; simpl; [by intros ?%elem_of_nil|].
  intros Hin Hn.
  destruct (deleteImageByName dir fs (JStr m)) as [[r fs1] c1] eqn:Em.
  specialize (IH fs1 n). destruct (delete_each dir fs1 names) as [[rs fs2] c2].
  simpl in *. apply elem_of_cons in Hin as [->|Hin].
  - unfold deleteImageByName in Em. rewrite (safeImageName_not_plain _ Hn) in Em.
    simplify_eq. apply list_elem_of_here.
  - apply list_elem_of_further. eauto.
Qed.

End DeleteFacts.

Module DeleteClaims.
Import JS JSFacts Server DeleteFacts.

Lemma delete_batch_unfold dir fs names unique :
  names ≠ [] →
  unique = set_of_list (filter (λ s, s ≠ "") (map (λ n, trim (toString n)) names)) →
  unique ≠ [] →
  delete_batch dir fs names =
    let '(results, fs', calls) := delete_each dir fs unique in
    let deleted := length (filter (λ r, ok r = true) results) in
    let failed := (length results - deleted)%nat in
    (BatchDone (bool_decide (failed = 0%nat)) deleted failed results, fs', calls).
Proof.
  intros Hn -> Hu. unfold delete_batch. destruct names; [done|].
  destruct (set_of_list _); done.
Qed.

(** C10 (safeImageName, deleteImageByName, the two delete routes): a name
    that, once trimmed, is empty, [.], [..] or differs from its own
    [path.basename] gets a not-ok result and no call of [fs.unlink], in the
    single route and as an entry of the batch route; every path that is ever
    handed to [fs.unlink], and every path at which the file system changes,
    is [IMAGES_DIR/name] for a name without a slash other than [.] and [..],
    that is an entry directly inside the images directory. *)
Theorem delete_only_plain_basenames (IMAGES_DIR : string) (fs : gmap string Node) :
  (∀ raw, not_plain raw →
     deleteImageByName IMAGES_DIR fs (JStr raw) = (invalid_name (JStr raw), fs, [])) ∧
  (∀ names n, n ∈ names → trim (toString n) ≠ "" → not_plain (trim (toString n)) →
     ∃ deleted failed results,
       (delete_batch IMAGES_DIR fs names).1.1 = BatchDone false deleted failed results ∧
       invalid_name (JStr (trim (toString n))) ∈ results) ∧
  (∀ raw p, p ∈ (deleteImageByName IMAGES_DIR fs raw).2 → direct_child IMAGES_DIR p) ∧
  (∀ names p, p ∈ (delete_batch IMAGES_DIR fs names).2 → direct_child IMAGES_DIR p) ∧
  (∀ names q, (delete_batch IMAGES_DIR fs names).1.2 !! q ≠ fs !! q →
     direct_child IMAGES_DIR q).
Proof.
  split_and!.
  - intros raw Hraw. unfold deleteImageByName.
    by rewrite (safeImageName_not_plain raw Hraw).
  - intros names n Hin Hne Hnp.
    set (unique := set_of_list (filter (λ s, s ≠ "") (map (λ n, trim (toString n)) names))).
    assert (Hu : trim (toString n) ∈ unique).
    { apply elem_of_set_of_list, list_elem_of_filter. split; [done|].
      apply list_elem_of_fmap. eauto. }
    rewrite (delete_batch_unfold _ _ _ unique); [|by intros ->; apply elem_of_nil in Hin|done|].
    2:{ intros Hnil. rewrite Hnil in Hu. by apply elem_of_nil in Hu. }
    pose proof (delete_each_results IMAGES_DIR unique fs _ Hu Hnp) as Hres.
    destruct (delete_each IMAGES_DIR fs unique) as [[results fs'] calls]. simpl in *.
    eexists _, _, results. split; [|done]. f_equal.
    apply bool_decide_eq_false.
    pose proof (length_filter_lt (λ r, ok r = true) results _ Hres) as Hlt.
    simpl in Hlt. specialize (Hlt ltac:(done)). lia.
  - intros raw p. apply deleteImageByName_calls.
  - intros names p. unfold delete_batch. destruct names as [|n0 names]; [by intros ?%elem_of_nil|].
    destruct (set_of_list _) as [|u us] eqn:Eu; [by intros ?%elem_of_nil|].
    pose proof (delete_each_calls IMAGES_DIR (u :: us) fs p) as H.
    destruct (delete_each IMAGES_DIR fs (u :: us)) as [[results fs'] calls]. done.
  - intros names q. unfold delete_batch. destruct names as [|n0 names]; [done|].
    destruct (set_of_list _) as [|u us] eqn:Eu; [done|].
    pose proof (delete_each_fs IMAGES_DIR (u :: us) fs q) as H.
    destruct (delete_each IMAGES_DIR fs (u :: us)) as [[results fs'] calls]. done.
Qed.

(** The theorem at a name that climbs out of the images directory, alone
    and in a batch with the name of a stored image. *)
Lemma delete_only_plain_basenames_witness :
  not_plain " ../crawl-report.json " ∧
  deleteImageByName Fixtures.images_dir Fixtures.images_fs (JStr " ../crawl-report.json ")
  = (invalid_name (JStr " ../crawl-report.json "), Fixtures.images_fs, []) ∧
  JStr " ../crawl-report.json " ∈ Fixtures.batch_names ∧
  not_plain (trim (toString (JStr " ../crawl-report.json "))) ∧
  ∃ deleted failed results,
    (delete_batch Fixtures.images_dir Fixtures.images_fs Fixtures.batch_names).1.1
    = BatchDone false deleted failed results ∧
    invalid_name (JStr "../crawl-report.json") ∈ results.
Proof.
  pose proof (delete_only_plain_basenames Fixtures.images_dir Fixtures.images_fs)
    as (Hone & Hbatch & _).
  assert (H : not_plain " ../crawl-report.json ").
  { right; right; right. vm_compute. discriminate. }
  assert (Hin : JStr " ../crawl-report.json " ∈ Fixtures.batch_names).
  { apply list_elem_of_further, list_elem_of_here. }
  assert (Hne : trim (toString (JStr " ../crawl-report.json ")) ≠ "").
  { vm_compute. discriminate. }
  assert (Ht : not_plain (trim (toString (JStr " ../crawl-report.json ")))).
  { right; right; right. vm_compute. discriminate. }
  split; [exact H|]. split; [exact (Hone _ H)|]. split; [exact Hin|]. split; [exact Ht|].
  exact (Hbatch _ _ Hin Hne Ht).
Defined.

End DeleteClaims.


(** ** server.js: the job state *)

Module JobClaims.
Import JS Server.

(** C8 (POST /api/crawl/start): while [running = true] the start request is
    answered with status 409 and the error [Crawler gia in esecuzione],
    whatever the request body, the clock and the behaviour [spawn] would
    have had; the job state afterwards is the job state before, field by
    field, and the snapshot in the answer is that same state. *)
Theorem start_while_running_rejected (execPath now : string) (sp : SpawnOutcome)
    (state : JobState) (body : option Payload) :
  running state = true →
  ∃ state', post_crawl_start execPath now sp state body
            = (Conflict409 "Crawler gia in esecuzione" state, state') ∧
    running state' = running state ∧ pid state' = pid state ∧
    startedAt state' = startedAt state ∧ endedAt state' = endedAt state ∧
    exitCode state' = exitCode state ∧ lastError state' = lastError state ∧
    command state' = command state ∧ payload state' = payload state.
Proof.
  intros Hrun. exists state. unfold post_crawl_start. rewrite Hrun. done.
Qed.

(** The theorem at a running job and a request for a pinterest crawl. *)
Lemma start_while_running_rejected_witness :
  running Fixtures.running_state = true ∧
  ∃ state', post_crawl_start "/usr/bin/node" "2024-05-01T10:03:00.000Z" (Spawned (Some 4243))
              Fixtures.running_state (Some empty_payload)
            = (Conflict409 "Crawler gia in esecuzione" Fixtures.running_state, state') ∧
    running state' = running Fixtures.running_state ∧ pid state' = pid Fixtures.running_state ∧
    startedAt state' = startedAt Fixtures.running_state ∧
    endedAt state' = endedAt Fixtures.running_state ∧
    exitCode state' = exitCode Fixtures.running_state ∧
    lastError state' = lastError Fixtures.running_state ∧
    command state' = command Fixtures.running_state ∧
    payload state' = payload Fixtures.running_state.
Proof.
  split; [reflexivity|].
  apply (start_while_running_rejected "/usr/bin/node" "2024-05-01T10:03:00.000Z"
           (Spawned (Some 4243)) Fixtures.running_state (Some empty_payload)).
  reflexivity.
Defined.

(** C9, against the wording of the specification: a unit that cannot be
    started does put the job state in Running.  From the initial state, a
    start whose child has no pid sets [running = true], and the [error]
    event that follows leaves it set. *)
Lemma launch_failure_enters_running : ¬ launch_failure_skips_running "/usr/bin/node".
Proof.
  intros H. destruct (H None "2024-05-01T10:00:00.000Z" "spawn /usr/bin/node ENOENT") as [H1 _].
  vm_compute in H1. discriminate.
Qed.

Lemma run_events_snoc execPath state es e :
  run_events execPath state (es ++ [e]) = step execPath (run_events execPath state es) e.
Proof. unfold run_events. by rewrite foldl_app. Qed.

Lemma step_keeps_running execPath state e :
  running state = true → is_close e = false → running (step execPath state e) = true.
Proof.
  intros Hrun He. destruct e as [body now sp|m|code now]; simpl in *; [|done|done].
  unfold post_crawl_start. by rewrite Hrun.
Qed.

(** C9, as the code has it: an accepted start sets [running = true] together
    with the start time and the parameters, whether or not the child got a
    pid; the [error] event of the child records its message in [lastError]
    and changes nothing else, so the job stays Running; when [spawn] itself
    throws no field changes.  A job that is Running leaves that state only
    by the [close] event of the child, which records the end time and the
    exit status: no sequence of other events ends it. *)
Theorem launch_error_recorded_while_running (execPath : string) :
  (∀ state body now child_pid, running state = false →
     let state' := step execPath state (StartRequest body now (Spawned child_pid)) in
     running state' = true ∧ pid state' = child_pid ∧ startedAt state' = Some now ∧
     payload state' = Some (default empty_payload body) ∧
     endedAt state' = None ∧ exitCode state' = None ∧ lastError state' = None) ∧
  (∀ state message,
     let state' := step execPath state (ChildError message) in
     lastError state' = Some message ∧
     running state' = running state ∧ pid state' = pid state ∧
     startedAt state' = startedAt state ∧ endedAt state' = endedAt state ∧
     exitCode state' = exitCode state ∧ command state' = command state ∧
     payload state' = payload state) ∧
  (∀ state body now message,
     step execPath state (StartRequest body now (SpawnThrows message)) = state) ∧
  (∀ state e, running state = true → running (step execPath state e) = false →
     ∃ code now, e = ChildClose code now ∧
       endedAt (step execPath state e) = Some now ∧
       exitCode (step execPath state e) = code ∧ pid (step execPath state e) = None) ∧
  (∀ state es, running state = true → forallb (λ e, negb (is_close e)) es = true →
     running (run_events execPath state es) = true).
Proof.
  split_and!.
  - intros state body now child_pid Hidle. simpl. unfold post_crawl_start.
    rewrite Hidle. simpl. done.
  - intros state message. simpl. done.
  - intros state body now message. simpl. unfold post_crawl_start.
    destruct (running state); done.
  - intros state e Hrun Hstop. destruct e as [body now sp|m|code now].
    + rewrite step_keeps_running in Hstop; done.
    + rewrite step_keeps_running in Hstop; done.
    + exists code, now. done.
  - intros state es Hrun. induction es as [|e es IH] using rev_ind; [done|].
    rewrite forallb_app, andb_true_iff. simpl. rewrite andb_true_r.
    intros [Hes He]. rewrite run_events_snoc. apply step_keeps_running; [auto|].
    by destruct (is_close e).
Qed.

(** The theorem at a unit that could not be started: Running until [close]. *)
Lemma launch_error_recorded_while_running_witness :
  let started := step "/usr/bin/node" initial_state
                   (StartRequest None "2024-05-01T10:00:00.000Z" (Spawned None)) in
  running initial_state = false ∧
  running started = true ∧
  forallb (λ e, negb (is_close e)) [ChildError "spawn /usr/bin/node ENOENT"] = true ∧
  running (run_events "/usr/bin/node" started [ChildError "spawn /usr/bin/node ENOENT"]) = true.
Proof.
  pose proof (launch_error_recorded_while_running "/usr/bin/node") as (H1 & _ & _ & _ & H5).
  assert (Hidle : running initial_state = false) by reflexivity.
  assert (Hes : forallb (λ e, negb (is_close e)) [ChildError "spawn /usr/bin/node ENOENT"] = true)
    by reflexivity.
  pose proof (H1 initial_state None "2024-05-01T10:00:00.000Z" None Hidle) as [Hrun _].
  split_and!; [exact Hidle|exact Hrun|exact Hes|].
  exact (H5 _ _ Hrun Hes).
Defined.

End JobClaims.


(** ** server.js: the progress estimator *)

Module ProgressFacts.
Import JS JSFacts Server.

Lemma saved_not_skipped msg : is_saved msg = true → is_skipped_small msg = false.
Proof.
  unfold is_saved, is_skipped_small, startsWith. intros [r Hr]%startsWith_l_spec.
  apply not_true_is_false. intros [r' Hr']%startsWith_l_spec.
  rewrite Hr in Hr'. vm_compute in Hr'. discriminate.
Qed.

Lemma saved_not_failure msg : is_saved msg = true → is_failure msg = false.
Proof.
  unfold is_saved, is_failure, startsWith. intros [r Hr]%startsWith_l_spec.
  apply not_true_is_false. intros [[r' Hr']%startsWith_l_spec|[r' Hr']%startsWith_l_spec]%orb_true_iff;
    rewrite Hr in Hr'; vm_compute in Hr'; discriminate.
Qed.

Lemma skipped_not_failure msg : is_skipped_small msg = true → is_failure msg = false.
Proof.
  unfold is_skipped_small, is_failure, startsWith. intros [r Hr]%startsWith_l_spec.
  apply not_true_is_false. intros [[r' Hr']%startsWith_l_spec|[r' Hr']%startsWith_l_spec]%orb_true_iff;
    rewrite Hr in Hr'; vm_compute in Hr'; discriminate.
Qed.

(** One turn of the loop, counter by counter. *)
Lemma count_line_fields Date_parse startedAtMs c line :
  let msg := message (parseLogLine Date_parse line) in
  let on := considered Date_parse startedAtMs line in
  let c' := count_line Date_parse startedAtMs c line in
  saved c' = (saved c + tick (on && is_saved msg))%nat ∧
  skipped c' = (skipped c + tick (on && is_skipped_small msg))%nat ∧
  failed c' = (failed c + tick (on && is_failure msg))%nat ∧
  collected c' =
    (if on then match scrollMatch msg with
                | Some n => Z.max (collected c) n
                | None => collected c
                end
     else collected c) ∧
  collectedTotal c' =
    (if on then match totalMatch msg with
                | Some n => Z.max (collectedTotal c) n
                | None => collectedTotal c
                end
     else collectedTotal c).
Proof.
  simpl. unfold count_line, considered.
  destruct (before_start startedAtMs (parseLogLine Date_parse line)); simpl.
  { repeat split; lia. }
  set (msg := message (parseLogLine Date_parse line)).
  fold (is_saved msg) (is_skipped_small msg) (is_failure msg).
  destruct (is_saved msg) eqn:E1.
  { rewrite (saved_not_skipped _ E1), (saved_not_failure _ E1).
    destruct (scrollMatch msg), (totalMatch msg); simpl; repeat split; lia. }
  destruct (is_skipped_small msg) eqn:E2.
  { rewrite (skipped_not_failure _ E2).
    destruct (scrollMatch msg), (totalMatch msg); simpl; repeat split; lia. }
  destruct (is_failure msg) eqn:E3;
    destruct (scrollMatch msg), (totalMatch msg); simpl; repeat split; lia.
Qed.

Lemma count_lines_cons kind Date_parse startedAtMs line logs :
  count_lines kind Date_parse startedAtMs (line :: logs) =
  (tick (considered Date_parse startedAtMs line
         && kind (message (parseLogLine Date_parse line)))
   + count_lines kind Date_parse startedAtMs logs)%nat.
Proof.
  unfold count_lines. simpl.
  destruct (considered Date_parse startedAtMs line
            && kind (message (parseLogLine Date_parse line))); done.
Qed.

Lemma max_lines_nonneg pattern Date_parse startedAtMs logs :
  0 ≤ max_lines pattern Date_parse startedAtMs logs.
Proof.
  induction logs as [|line logs IH]; simpl; [done|].
  destruct (considered _ _ _); [|done].
  destruct (pattern _); [lia|done].
Qed.

(** The loop over the record computes the counts and the maxima. *)
Lemma fold_count_line Date_parse startedAtMs logs : ∀ c,
  0 ≤ collected c → 0 ≤ collectedTotal c →
  let c' := foldl (count_line Date_parse startedAtMs) c logs in
  saved c' = (saved c + count_lines is_saved Date_parse startedAtMs logs)%nat ∧
  skipped c' = (skipped c + count_lines is_skipped_small Date_parse startedAtMs logs)%nat ∧
  failed c' = (failed c + count_lines is_failure Date_parse startedAtMs logs)%nat ∧
  collected c' = Z.max (collected c) (max_lines scrollMatch Date_parse startedAtMs logs) ∧
  collectedTotal c' = Z.max (collectedTotal c) (max_lines totalMatch Date_parse startedAtMs logs).
Proof.
  induction logs as [|line logs IH]; intros c Hc Ht.
  - simpl. unfold count_lines. simpl. repeat split; lia.
  - cbn [foldl]. pose proof (count_line_fields Date_parse startedAtMs c line) as H.
    cbv zeta in H. destruct H as (H1 & H2 & H3 & H4 & H5).
    set (c1 := count_line Date_parse startedAtMs c line) in *.
    assert (Hc1 : 0 ≤ collected c1).
    { rewrite H4. destruct (considered _ _ _); [|done]. destruct (scrollMatch _); lia. }
    assert (Ht1 : 0 ≤ collectedTotal c1).
    { rewrite H5. destruct (considered _ _ _); [|done]. destruct (totalMatch _); lia. }
    specialize (IH c1 Hc1 Ht1). cbv zeta in IH. destruct IH as (I1 & I2 & I3 & I4 & I5).
    rewrite !count_lines_cons. cbv zeta.
    rewrite I1, I2, I3, I4, I5, H1, H2, H3, H4, H5.
    pose proof (max_lines_nonneg scrollMatch Date_parse startedAtMs logs).
    pose proof (max_lines_nonneg totalMatch Date_parse startedAtMs logs).
    simpl. destruct (considered _ _ _); simpl.
    + destruct (scrollMatch _), (totalMatch _); repeat split; lia.
    + repeat split; lia.
Qed.



End ProgressFacts.

Module ProgressClaims.
Import JS JSFacts Server ProgressFacts.

(** What [buildProgress] returns once the job has a start time. *)
Lemma buildProgress_started Date_parse now state logs started :
  startedAt state = Some started → started ≠ "" →
  let c := foldl (count_line Date_parse (Date_parse started)) zero_counters logs in
  let processed := (saved c + skipped c + failed c)%nat in
  let target := positive_target (compute_target (mode_of state)
                                   (default empty_payload (payload state)) c) in
  ∃ pr, buildProgress Date_parse now state logs = Some pr ∧
    pr_saved pr = saved c ∧ pr_skipped pr = skipped c ∧ pr_failed pr = failed c ∧
    pr_processed pr = processed ∧ pr_target pr = target ∧
    pr_percent pr =
      match target with
      | Some t => Some (Z.min 100 (Math_round ((inject_Z (Z.of_nat processed) / inject_Z t) * 100)))
      | None => None
      end ∧
    (target = None → pr_etaSec pr = None).
Proof.
  intros Hs Hne. simpl. unfold buildProgress. rewrite Hs.
  apply String.eqb_neq in Hne. rewrite Hne.
  eexists. split; [reflexivity|]. simpl. unfold mode_of.
  split_and!; try reflexivity.
  intros ->. simpl. by rewrite andb_false_r.
Qed.




End ProgressClaims.

Module TargetClaims.
Import JS JSFacts Server ProgressFacts ProgressClaims.

(** C7, against the wording of the specification: in scroll-discovery mode
    with a declared maximum of 80, a record whose collection total is 5
    gives the target 5, not the declared maximum raised by the total; and a
    record whose collection total is 0 gives the target 80, not the total. *)
Lemma target_not_overridden_upward :
  ¬ target_overridden_upward Fixtures.date_parse ∧
  ¬ target_overridden_by_total Fixtures.date_parse.
Proof.
  split; intros H.
  - destruct (H 1714557606000 (Fixtures.pinterest_job 80) Fixtures.short_logs
                "2024-05-01T10:00:00.000Z" 80 eq_refl ltac:(discriminate) eq_refl eq_refl)
      as (pr & Hpr & Ht).
    vm_compute in Hpr. injection Hpr as <-. vm_compute in Ht. discriminate.
  - destruct (H 1714557606000 (Fixtures.pinterest_job 80) Fixtures.empty_logs
                "2024-05-01T10:00:00.000Z" 80 eq_refl ltac:(discriminate) eq_refl eq_refl)
      as (pr & Hpr & Ht).
    vm_compute in Hpr. injection Hpr as <-. vm_compute in Ht. discriminate.
Qed.

(** C7, as the code has it.  In scroll-discovery mode (the mode is exactly
    [pinterest]): when some considered line announces a positive collection
    total, the target is the largest such total, which replaces the declared
    maximum also when it is smaller; otherwise, when some considered line
    reports a positive scroll count, the target is the declared maximum
    raised to the largest such count; otherwise it is the declared maximum;
    a target that is not positive is reported as null.  In any other mode,
    site crawl included, target, percent and ETA are null. *)
Theorem target_rule (Date_parse : string → option Z) (now : Z) (state : JobState)
    (logs : list string) (started : string) :
  startedAt state = Some started → started ≠ "" →
  let total := max_lines totalMatch Date_parse (Date_parse started) logs in
  let seen := max_lines scrollMatch Date_parse (Date_parse started) logs in
  let declared := declared_max (default empty_payload (payload state)) in
  ∃ pr, buildProgress Date_parse now state logs = Some pr ∧
    (mode_of state = JStr "pinterest" → 0 < total → pr_target pr = Some total) ∧
    (mode_of state = JStr "pinterest" → total = 0 → 0 < seen →
       ∀ d, declared = Some d → pr_target pr = Some (Z.max d seen)) ∧
    (mode_of state = JStr "pinterest" → total = 0 → seen = 0 →
       ∀ d, declared = Some d → pr_target pr = if 0 <? d then Some d else None) ∧
    (mode_of state ≠ JStr "pinterest" →
       pr_target pr = None ∧ pr_percent pr = None ∧ pr_etaSec pr = None).
Proof.
  intros Hs Hne. cbv zeta.
  destruct (buildProgress_started Date_parse now state logs started Hs Hne)
    as (pr & Hpr & _ & _ & _ & _ & H5 & H6 & H7).
  destruct (fold_count_line Date_parse (Date_parse started) logs zero_counters)
    as (_ & _ & _ & F4 & F5); [done|done|]. simpl in F4, F5.
  pose proof (max_lines_nonneg scrollMatch Date_parse (Date_parse started) logs) as Hseen.
  pose proof (max_lines_nonneg totalMatch Date_parse (Date_parse started) logs) as Htotal.
  rewrite Z.max_r in F4, F5 by done.
  exists pr. split; [exact Hpr|]. rewrite H5. unfold compute_target. rewrite F4, F5.
  split_and!.
  - intros -> Hpos. simpl. rewrite (proj2 (Z.ltb_lt _ _) Hpos). simpl.
    by rewrite (proj2 (Z.ltb_lt _ _) Hpos).
  - intros -> -> Hpos d ->. simpl. rewrite (proj2 (Z.ltb_lt _ _) Hpos). simpl.
    assert ((0 <? Z.max d (max_lines scrollMatch Date_parse (Date_parse started) logs)) = true)
      as -> by (apply Z.ltb_lt; lia). done.
  - intros -> -> -> d ->. simpl. done.
  - intros Hmode.
    assert (Hnone : positive_target
              match mode_of state with
              | JStr "pinterest" =>
                  if 0 <? max_lines totalMatch Date_parse (Date_parse started) logs
                  then Some (max_lines totalMatch Date_parse (Date_parse started) logs)
                  else if 0 <? max_lines scrollMatch Date_parse (Date_parse started) logs
                       then match declared_max (default empty_payload (payload state)) with
                            | Some t => Some (Z.max t (max_lines scrollMatch Date_parse
                                                         (Date_parse started) logs))
                            | None => None
                            end
                       else declared_max (default empty_payload (payload state))
              | _ => Some 0
              end = None).
    { destruct (mode_of state) as [| | | |s]; try done.
      destruct (decide (s = "pinterest")) as [->|Hs']; [done|].
      repeat (destruct s as [|[[] [] [] [] [] [] [] []] s]; try done). }
    unfold compute_target in H6, H7. rewrite F4, F5 in H6, H7.
    rewrite Hnone in *. split_and!; [done|done|]. by apply H7.
Qed.

(** The theorem at a record whose collection total is below the declared
    maximum. *)
Lemma target_rule_witness :
  mode_of (Fixtures.pinterest_job 80) = JStr "pinterest" ∧
  0 < max_lines totalMatch Fixtures.date_parse
         (Fixtures.date_parse "2024-05-01T10:00:00.000Z") Fixtures.short_logs ∧
  ∃ pr, buildProgress Fixtures.date_parse 1714557606000 (Fixtures.pinterest_job 80)
          Fixtures.short_logs = Some pr ∧
        pr_target pr = Some 5.
Proof.
  assert (Hmode : mode_of (Fixtures.pinterest_job 80) = JStr "pinterest") by reflexivity.
  assert (Hpos : 0 < max_lines totalMatch Fixtures.date_parse
                       (Fixtures.date_parse "2024-05-01T10:00:00.000Z") Fixtures.short_logs)
    by (vm_compute; reflexivity).
  split; [exact Hmode|]. split; [exact Hpos|].
  destruct (target_rule Fixtures.date_parse 1714557606000 (Fixtures.pinterest_job 80)
              Fixtures.short_logs "2024-05-01T10:00:00.000Z" eq_refl ltac:(discriminate))
    as (pr & Hpr & H1 & _).
  exists pr. split; [exact Hpr|]. rewrite (H1 Hmode Hpos). vm_compute. reflexivity.
Defined.

End TargetClaims.


(** ** crawler.js: ingestion *)

Module IngestFacts.
Import JS JSFacts Log Crawler.

Ltac ingest_cases :=
  unfold ingest, on_throw, log, with_stats, writeFile;
  repeat case_match; simplify_eq/=.

(** The [try] block settles a candidate with exactly one of the three
    outcome counters and leaves the set of seen locations alone. *)
Lemma ingest_frame E dir mw q u st :
  let st' := ingest E dir mw q u st in
  downloadedImages st' = downloadedImages st ∧ fetched st' = fetched st ∧
  outcomes (stats st') = S (outcomes (stats st)) ∧
  imagesFound (stats st') = imagesFound (stats st).
Proof. simpl. ingest_cases; unfold outcomes; simpl; split_and!; try done; lia. Qed.

(** A candidate that is too small is counted and logged, nothing else. *)
Lemma ingest_small E dir mw q u st :
  too_small E mw u = true →
  ingest E dir mw q u st
  = log (ImgSkippedSmall u (decoded_width E u) mw) (with_stats incr_skipped st).
Proof.
  unfold too_small, decoded_width, ingest. intros H.
  destruct (fetchImage E u) as [[img|]|]; try done.
  destruct (imageSize E (buffer img)) as [size|]; try done.
  destruct (truthy_num (width size)) as [w|]; [rewrite H|]; eauto.
Qed.

(** A candidate writes at most one file, named by [filenameFromUrl]. *)
Lemma ingest_write E dir mw q u st :
  let st' := ingest E dir mw q u st in
  (written st' = written st ∧ store st' = store st) ∨
  (too_small E mw u = false ∧
   ∃ img size name data,
     fetchImage E u = Ret (Some img) ∧ imageSize E (buffer img) = Ret size ∧
     filenameFromUrl E u (type size) (Some (contentType img)) (width size) (height size)
       = Ret name ∧
     written st' = written st ++ [(u, path_join dir name, data)] ∧
     store st' = <[path_join dir name := data]> (store st)).
Proof.
  simpl. unfold too_small. ingest_cases; try (by left).
  all: right; split; [done|]; eexists _, _, _, _; split_and!; done.
Qed.


End IngestFacts.

Module RunFacts.
Import JS JSFacts Log Crawler IngestFacts.

Section run.
Context (E : Env) (dir : string) (mw q : Z).

Let step := download_step E dir mw q.

Lemma step_duplicate st u : u ∈ downloadedImages st → step st u = st.
Proof. intros H. unfold step, download_step. by rewrite decide_True. Qed.

Lemma step_fresh st u :
  u ∉ downloadedImages st → step st u = ingest E dir mw q u (seen u st).
Proof. intros H. unfold step, download_step. by rewrite decide_False. Qed.

Lemma ingest_activity u st :
  ∃ ev, activity (ingest E dir mw q u st) = activity st ++ [ev].
Proof. ingest_cases; eauto. Qed.

Lemma ingest_not_small u st :
  too_small E mw u = false →
  imagesSkippedSmall (stats (ingest E dir mw q u st)) = imagesSkippedSmall (stats st).
Proof. unfold too_small. ingest_cases; done. Qed.

(** The locations requested are the distinct locations of the list, in the
    order of their first occurrence; every one settles one counter. *)
Lemma run_fetched urls : ∀ st,
  downloadedImages st = list_to_set (fetched st) →
  let st' := foldl step st urls in
  fetched st' = foldl (λ s x, set_add x s) (fetched st) urls ∧
  downloadedImages st' = list_to_set (fetched st') ∧
  (outcomes (stats st') + length (fetched st) = outcomes (stats st) + length (fetched st'))%nat ∧
  imagesFound (stats st') = imagesFound (stats st).
Proof.
  induction urls as [|u urls IH]; intros st Hinv; [done|].
  cbn [foldl]. destruct (decide (u ∈ downloadedImages st)) as [Hin|Hnin].
  - rewrite (step_duplicate _ _ Hin). destruct (IH st Hinv) as (I1 & I2 & I3 & I4).
    split_and!; try done. rewrite I1. f_equal. unfold set_add.
    rewrite decide_True; [done|]. rewrite Hinv in Hin. by apply elem_of_list_to_set in Hin.
  - rewrite (step_fresh _ _ Hnin).
    destruct (ingest_frame E dir mw q u (seen u st)) as (F1 & F2 & F3 & F4).
    simpl in F1, F2, F3, F4.
    set (st1 := ingest E dir mw q u (seen u st)) in *.
    assert (Hinv1 : downloadedImages st1 = list_to_set (fetched st1)).
    { rewrite F1, F2, Hinv, list_to_set_app_L. simpl.
      rewrite union_empty_r_L. apply (comm_L _). }
    destruct (IH st1 Hinv1) as (I1 & I2 & I3 & I4).
    split_and!; try done.
    + rewrite I1, F2. f_equal. unfold set_add. rewrite decide_False; [done|].
      rewrite Hinv in Hnin. by rewrite elem_of_list_to_set in Hnin.
    + rewrite F2, length_app in I3. simpl in I3. lia.
    + by rewrite I4, F4.
Qed.

Lemma apply_writes_snoc ws w m :
  apply_writes (ws ++ [w]) m = <[w.1.2 := w.2]> (apply_writes ws m).
Proof. unfold apply_writes. by rewrite foldl_app. Qed.

(** Every write of the run is for a location of the list that is not too
    small, under the name [filenameFromUrl] gives it; the content store is
    the initial one after these writes. *)
Lemma run_written m0 urls : ∀ st,
  store st = apply_writes (written st) m0 →
  let st' := foldl step st urls in
  store st' = apply_writes (written st') m0 ∧
  ∀ w, w ∈ written st' → w ∈ written st ∨ write_ok E dir mw urls w.
Proof.
  induction urls as [|u urls IH]; intros st Hinv.
  { simpl. split; [done|]. by left. }
  cbn [foldl]. destruct (decide (u ∈ downloadedImages st)) as [Hin|Hnin].
  - rewrite (step_duplicate _ _ Hin).
    destruct (IH st Hinv) as [I1 I2]. split; [done|].
    intros w Hw. destruct (I2 w Hw) as [?|(?&?&?)]; [by left|right].
    split; [by apply list_elem_of_further|done].
  - rewrite (step_fresh _ _ Hnin).
    destruct (ingest_write E dir mw q u (seen u st)) as [[W1 W2]|(Hs & img & size & name & data & F1 & F2 & F3 & W1 & W2)];
      simpl in W1, W2;
      set (st1 := ingest E dir mw q u (seen u st)) in *.
    + assert (Hinv1 : store st1 = apply_writes (written st1) m0) by (by rewrite W1, W2).
      destruct (IH st1 Hinv1) as [I1 I2]. split; [done|].
      intros w Hw. destruct (I2 w Hw) as [Hold|(?&?&?)].
      * left. by rewrite W1 in Hold.
      * right. split; [by apply list_elem_of_further|done].
    + assert (Hinv1 : store st1 = apply_writes (written st1) m0).
      { by rewrite W1, W2, apply_writes_snoc, Hinv. }
      destruct (IH st1 Hinv1) as [I1 I2]. split; [done|].
      intros w Hw. destruct (I2 w Hw) as [Hold|(?&?&?)].
      * rewrite W1 in Hold. apply elem_of_app in Hold as [?|Hnew]; [by left|right].
        apply list_elem_of_singleton in Hnew as ->.
        split; [apply list_elem_of_here|]. split; [done|]. simpl. eauto 10.
      * right. split; [by apply list_elem_of_further|done].
Qed.

(** The record only grows, and a too small candidate leaves its line. *)
Lemma run_activity urls : ∀ st a,
  a ∈ activity st → a ∈ activity (foldl step st urls).
Proof.
  induction urls as [|u urls IH]; intros st a Ha; [done|].
  cbn [foldl]. apply IH.
  destruct (decide (u ∈ downloadedImages st)) as [Hin|Hnin].
  - by rewrite (step_duplicate _ _ Hin).
  - rewrite (step_fresh _ _ Hnin).
    destruct (ingest_activity u (seen u st)) as [ev ->]. simpl.
    apply elem_of_app. by left.
Qed.

Lemma run_skipped urls : ∀ st,
  downloadedImages st = list_to_set (fetched st) →
  let st' := foldl step st urls in
  (imagesSkippedSmall (stats st')
   + length (List.filter (too_small E mw) (fetched st)) =
   imagesSkippedSmall (stats st)
   + length (List.filter (too_small E mw) (fetched st')))%nat.
Proof.
  induction urls as [|u urls IH]; intros st Hinv; [done|].
  cbn [foldl]. destruct (decide (u ∈ downloadedImages st)) as [Hin|Hnin].
  - rewrite (step_duplicate _ _ Hin). by apply IH.
  - rewrite (step_fresh _ _ Hnin).
    destruct (ingest_frame E dir mw q u (seen u st)) as (F1 & F2 & _ & _).
    simpl in F1, F2.
    assert (Hinv1 : downloadedImages (ingest E dir mw q u (seen u st))
                    = list_to_set (fetched (ingest E dir mw q u (seen u st)))).
    { rewrite F1, F2, Hinv, list_to_set_app_L. simpl.
      rewrite union_empty_r_L. apply (comm_L _). }
    specialize (IH _ Hinv1). cbv zeta in IH. rewrite F2 in IH at 1.
    rewrite List.filter_app, length_app in IH. simpl in IH.
    destruct (too_small E mw u) eqn:Hs.
    + rewrite (ingest_small E dir mw q u (seen u st) Hs) in IH at 2. simpl in IH. lia.
    + rewrite (ingest_not_small u (seen u st) Hs) in IH. simpl in IH. lia.
Qed.

Lemma run_small_logged urls : ∀ st u,
  u ∈ urls → u ∉ downloadedImages st → too_small E mw u = true →
  ImgSkippedSmall u (decoded_width E u) mw ∈ activity (foldl step st urls).
Proof.
  induction urls as [|v urls IH]; intros st u Hin Hnew Hs; [by apply elem_of_nil in Hin|].
  cbn [foldl]. destruct (decide (u = v)) as [<-|Hne].
  - rewrite (step_fresh _ _ Hnew). apply run_activity.
    rewrite (ingest_small E dir mw q u (seen u st) Hs). simpl.
    apply elem_of_app. right. apply list_elem_of_here.
  - apply elem_of_cons in Hin as [?|Hin]; [done|].
    apply IH; [done| |done].
    destruct (decide (v ∈ downloadedImages st)) as [Hv|Hv].
    { by rewrite (step_duplicate _ _ Hv). }
    rewrite (step_fresh _ _ Hv).
    destruct (ingest_frame E dir mw q v (seen v st)) as (F1 & _). simpl in F1.
    rewrite F1. simpl. intros [?%elem_of_singleton|?]%elem_of_union; done.
Qed.

End run.
End RunFacts.

Module FilenameFacts.
Import JS JSFacts Log Crawler IngestFacts RunFacts.



Lemma last_write_snoc ws w p :
  last_write (ws ++ [w]) p = if decide (w.1.2 = p) then Some w.2 else last_write ws p.
Proof. unfold last_write. by rewrite foldl_app. Qed.

Lemma apply_writes_lookup ws m p :
  apply_writes ws m !! p = match last_write ws p with
                           | Some d => Some d
                           | None => m !! p
                           end.
Proof.
  induction ws as [|w ws IH] using rev_ind; [done|].
  rewrite apply_writes_snoc, last_write_snoc.
  destruct (decide (w.1.2 = p)) as [<-|Hne].
  - by rewrite lookup_insert_eq.
  - by rewrite lookup_insert_ne.
Qed.



End FilenameFacts.

Module IngestClaims.
Import JS JSFacts Log Crawler IngestFacts RunFacts FilenameFacts.

Lemma size_unique (urls : list string) :
  size (list_to_set urls : gset string) = length (set_of_list urls).
Proof.
  rewrite <- (size_list_to_set (C:=gset string) (set_of_list urls))
    by apply NoDup_set_of_list.
  f_equal. apply set_eq. intros u.
  by rewrite !elem_of_list_to_set, elem_of_set_of_list.
Qed.

Lemma download_start_inv urls store0 log0 :
  downloadedImages (download_start urls store0 log0)
  = list_to_set (fetched (download_start urls store0 log0)).
Proof. done. Qed.

(** C1 (downloadImages): the locations requested from the client are the
    distinct locations of the list, each once, in the order of their first
    occurrence; a turn of the loop for a location that was already seen
    leaves counters, store and record as they are; on return
    [imagesSaved + imagesSkippedSmall + imagesFailed] is the number of
    distinct locations of the list, and [imagesFound] its length. *)
Theorem ingest_once_per_location (E : Env) (urls : list string) (dir : string)
    (mw q : Z) (store0 : gmap string string) (log0 : list Activity) :
  let r := downloadImages E urls dir mw q store0 log0 in
  fetched r = set_of_list urls ∧ NoDup (fetched r) ∧
  (∀ u, u ∈ fetched r ↔ u ∈ urls) ∧
  (∀ st u, u ∈ downloadedImages st → download_step E dir mw q st u = st) ∧
  (imagesSaved (stats r) + imagesSkippedSmall (stats r) + imagesFailed (stats r))%nat
  = size (list_to_set urls : gset string) ∧
  imagesFound (stats r) = length urls.
Proof.
  cbv zeta. unfold downloadImages.
  destruct (run_fetched E dir mw q urls _ (download_start_inv urls store0 log0))
    as (F1 & _ & F3 & F4).
  simpl in F1, F3, F4. fold (set_of_list urls) in F1.
  split_and!.
  - exact F1.
  - rewrite F1. apply NoDup_set_of_list.
  - intros u. rewrite F1. apply elem_of_set_of_list.
  - intros st u Hin. unfold download_step. by rewrite decide_True.
  - rewrite size_unique, <- F1. unfold outcomes in F3. lia.
  - exact F4.
Qed.

(** The theorem at the candidates of the index page, the first of which
    comes twice. *)
Lemma ingest_once_per_location_witness :
  let r := downloadImages Fixtures.site Fixtures.site_candidates Fixtures.output_dir 100 75 ∅ [] in
  "https://site.test/img/a.jpg" ∈ downloadedImages r ∧
  download_step Fixtures.site Fixtures.output_dir 100 75 r "https://site.test/img/a.jpg" = r ∧
  (imagesSaved (stats r) + imagesSkippedSmall (stats r) + imagesFailed (stats r))%nat = 3%nat.
Proof.
  cbv zeta.
  pose proof (ingest_once_per_location Fixtures.site Fixtures.site_candidates
                Fixtures.output_dir 100 75 ∅ []) as (_ & _ & _ & Hdup & Hsum & _).
  assert (Hin : "https://site.test/img/a.jpg"
                ∈ downloadedImages (downloadImages Fixtures.site Fixtures.site_candidates
                                      Fixtures.output_dir 100 75 ∅ [])).
  { apply (bool_decide_unpack _). vm_compute. exact I. }
  split; [exact Hin|]. split; [exact (Hdup _ _ Hin)|].
  rewrite Hsum. vm_compute. reflexivity.
Defined.

(** C2 (downloadImages): [imagesSkippedSmall] is the number of distinct
    locations of the list that are too small.  For a location of the list
    that is fetched as an image which the decoder reads with no width, width
    0 or a width below [minWidth]: its [IMG skipped_small] line is in the
    activity record and no call of [fs.writeFile] is made for it.  The
    content store after the run is the store before it with the recorded
    writes applied, so it differs from it only at a path of a recorded
    write, and every such write is for a location that is not too small. *)
Theorem small_images_never_written (E : Env) (urls : list string) (dir : string)
    (mw q : Z) (store0 : gmap string string) (log0 : list Activity) :
  let r := downloadImages E urls dir mw q store0 log0 in
  imagesSkippedSmall (stats r)
  = length (List.filter (too_small E mw) (set_of_list urls)) ∧
  (∀ u img size,
     u ∈ urls → fetchImage E u = Ret (Some img) → imageSize E (buffer img) = Ret size →
     (width size = None ∨ width size = Some 0 ∨ ∃ w, width size = Some w ∧ w < mw) →
     too_small E mw u = true ∧
     ImgSkippedSmall u (or_zero (width size)) mw ∈ activity r ∧
     ∀ path data, (u, path, data) ∉ written r) ∧
  store r = apply_writes (written r) store0 ∧
  (∀ path, store r !! path ≠ store0 !! path →
     ∃ u data, (u, path, data) ∈ written r ∧ too_small E mw u = false).
Proof.
  cbv zeta. unfold downloadImages.
  pose proof (run_skipped E dir mw q urls _ (download_start_inv urls store0 log0)) as Hsk.
  destruct (run_fetched E dir mw q urls _ (download_start_inv urls store0 log0)) as (F1 & _).
  destruct (run_written E dir mw q store0 urls (download_start urls store0 log0) eq_refl)
    as [Hstore Hw].
  simpl in Hsk, F1, Hw. fold (set_of_list urls) in F1.
  split_and!.
  - rewrite <- F1. lia.
  - intros u img size Hin Hf Hs Hwidth.
    assert (Hsmall : too_small E mw u = true).
    { unfold too_small. rewrite Hf, Hs.
      destruct Hwidth as [->|[->|(w & -> & Hlt)]]; try done.
      simpl. destruct (w =? 0); [done|]. by apply Z.ltb_lt. }
    split; [exact Hsmall|]. split.
    + pose proof (run_small_logged E dir mw q urls (download_start urls store0 log0) u Hin
                    ltac:(simpl; apply not_elem_of_empty) Hsmall) as Hlog.
      unfold decoded_width in Hlog. by rewrite Hf, Hs in Hlog.
    + intros path data Hmem. destruct (Hw _ Hmem) as [Hold|(_ & Hns & _)].
      * by apply elem_of_nil in Hold.
      * simpl in Hns. congruence.
  - exact Hstore.
  - intros path Hne. rewrite Hstore, apply_writes_lookup in Hne.
    set (ws := written (foldl (download_step E dir mw q)
                          (download_start urls store0 log0) urls)) in *.
    assert (Hlast : ∀ ws' d, last_write ws' path = Some d →
              ∃ u, (u, path, d) ∈ ws').
    { clear. induction ws' as [|w ws' IH] using rev_ind; intros d; [done|].
      rewrite last_write_snoc. destruct (decide (w.1.2 = path)) as [<-|_].
      - intros [= <-]. exists w.1.1. apply elem_of_app. right.
        destruct w as [[? ?] ?]. apply list_elem_of_here.
      - intros [u Hu]%IH. exists u. apply elem_of_app. by left. }
    destruct (last_write ws path) as [d|] eqn:El; [|done].
    destruct (Hlast ws d El) as [u Hu]. exists u, d. split; [done|].
    destruct (Hw _ Hu) as [Hold|(_ & Hns & _)]; [by apply elem_of_nil in Hold|done].
Qed.

(** The theorem at the 50 pixel wide image of the index page, with
    [minWidth] 100. *)
Lemma small_images_never_written_witness :
  let r := downloadImages Fixtures.site Fixtures.site_candidates Fixtures.output_dir 100 75 ∅ [] in
  "https://site.test/b.png" ∈ Fixtures.site_candidates ∧
  (∃ w, Some 50 = Some w ∧ w < 100) ∧
  too_small Fixtures.site 100 "https://site.test/b.png" = true ∧
  ImgSkippedSmall "https://site.test/b.png" 50 100 ∈ activity r ∧
  ∀ path data, ("https://site.test/b.png", path, data) ∉ written r.
Proof.
  cbv zeta.
  pose proof (small_images_never_written Fixtures.site Fixtures.site_candidates
                Fixtures.output_dir 100 75 ∅ []) as (_ & Hsmall & _).
  assert (Hin : "https://site.test/b.png" ∈ Fixtures.site_candidates).
  { apply (bool_decide_unpack _). vm_compute. exact I. }
  assert (Hw : ∃ w : Z, Some 50 = Some w ∧ w < 100) by (exists 50; split; [reflexivity|lia]).
  split; [exact Hin|]. split; [exact Hw|].
  exact (Hsmall "https://site.test/b.png"
           {| contentType := "image/png"; buffer := "png 50x50" |}
           {| width := Some 50; height := Some 50; type := Some "png" |}
           Hin eq_refl eq_refl (or_intror (or_intror Hw))).
Defined.

End IngestClaims.

Module FilenameClaims.
Import JS JSFacts Log Crawler IngestFacts RunFacts FilenameFacts.






End FilenameClaims.


(** ** crawler.js: the site crawl *)

Module CrawlFacts.
Import JS JSFacts Log Crawler.

Section crawl.
Context (E : Env) (maxDepth : Z) (sameOriginOnly : bool) (startUrl : string).
Context (laws : Url.Laws (url_lib E)).

Local Abbreviation link_of_page := (Crawler.link_of_page E sameOriginOnly).
Local Abbreviation item_ok := (Crawler.item_ok E maxDepth sameOriginOnly startUrl).
Local Abbreviation visit_ok := (Crawler.visit_ok E maxDepth sameOriginOnly startUrl).
Local Abbreviation crawl_inv := (Crawler.crawl_inv E maxDepth sameOriginOnly startUrl).

Lemma link_step_spec pageUrl page acc href set' :
  Url.new_URL (url_lib E) pageUrl None = Ret page →
  link_step E pageUrl (Url.origin (url_lib E) page) sameOriginOnly acc href = Ret set' →
  ∃ set, acc = Ret set ∧
    ∀ link, link ∈ set' → link ∈ set ∨ link_of_page pageUrl link.
Proof.
  intros Hpage. unfold link_step. destruct acc as [set|m]; [|done].
  intros H. exists set. split; [done|]. revert H.
  destruct (String.eqb href ""); [intros [= <-]; by left|].
  destruct (normalizeUrl E href pageUrl) as [full|]; [|intros [= <-]; by left].
  destruct (Url.new_URL (url_lib E) full None) as [parsed|] eqn:Ep; [|done].
  destruct (is_http (Url.protocol (url_lib E) parsed)) eqn:Eh; simpl;
    [|intros [= <-]; by left].
  destruct (sameOriginOnly && negb (String.eqb (Url.origin (url_lib E) parsed)
                                      (Url.origin (url_lib E) page))) eqn:Eo;
    [intros [= <-]; by left|].
  intros [= <-] link [->|?]%elem_of_set_add; [right|by left].
  exists page, full, parsed. split_and!; try done.
  intros ->. simpl in Eo. apply negb_false_iff, String.eqb_eq in Eo. done.
Qed.

Lemma extractLinks_spec doc pageUrl links :
  extractLinks E doc pageUrl sameOriginOnly = Ret links →
  ∀ link, link ∈ links → link_of_page pageUrl link.
Proof.
  unfold extractLinks.
  destruct (Url.new_URL (url_lib E) pageUrl None) as [page|] eqn:Epage; [|done].
  generalize (anchors doc). intros hrefs. revert links.
  induction hrefs as [|h hrefs IH] using rev_ind; intros links.
  - simpl. intros [= <-] link Hl. by apply elem_of_nil in Hl.
  - rewrite foldl_app. simpl. intros Hstep.
    destruct (link_step_spec _ _ _ _ _ Epage Hstep) as (set & Hacc & Hset).
    intros link Hl. destruct (Hset link Hl) as [?|?]; [|done]. by eapply IH.
Qed.

(** A link found on a page of the frontier is a link as the claim wants it. *)
Lemma link_of_page_enqueued current link :
  item_ok current → link_of_page (q_url current) link →
  enqueued_link E sameOriginOnly startUrl link.
Proof.
  intros Hcur (page & full & parsed & Hpage & Hparsed & -> & Hhttp & Horigin).
  destruct (Url.reparse _ laws _ _ _ Hparsed) as (u' & Hu' & Ho & Hp).
  exists full, None, parsed, u'. split_and!; try done.
  { by rewrite Hp. }
  intros Hso. specialize (Horigin Hso). rewrite Ho, Horigin.
  destruct Hcur as [->|(_ & raw & base & parsed_c & uc & Hraw & Hlink & Huc & _ & Hseed)].
  - exists page. done.
  - destruct (Hseed Hso) as (seed & Hs1 & Hs2). exists seed. split; [done|].
    rewrite Hpage in Huc. by injection Huc as ->.
Qed.

Lemma enqueue_links_ok depth links visited queue :
  Forall item_ok queue →
  0 ≤ depth < maxDepth →
  (∀ link, link ∈ links → enqueued_link E sameOriginOnly startUrl link) →
  Forall item_ok (enqueue_links depth links visited queue).
Proof.
  unfold enqueue_links. revert queue.
  induction links as [|link links IH]; intros queue Hq Hd Hl; [done|].
  simpl. apply IH; [|done|].
  - destruct (decide (link ∈ visited)); [done|].
    apply Forall_app. split; [done|]. apply Forall_singleton. right. simpl.
    split; [lia|]. apply Hl, list_elem_of_here.
  - intros l Hin. apply Hl. by apply list_elem_of_further.
Qed.

Lemma item_depth_nonneg item : item_ok item → 0 ≤ q_depth item.
Proof. intros [->|[? _]]; simpl; lia. Qed.

(** One turn of the loop keeps the invariant, however it ends. *)
Lemma crawl_turn_inv log0 c :
  crawl_inv log0 c → crawl_inv log0 (crawl_of (crawl_turn E maxDepth sameOriginOnly c)).
Proof.
  intros [Hq Hl]. unfold crawl_turn.
  destruct (queue c) as [|current rest] eqn:Eq.
  { split; simpl; [by rewrite Eq|done]. }
  apply Forall_cons in Hq as [Hcur Hrest].
  destruct (bool_decide (q_url current ∈ visitedPages c)) eqn:Ev; simpl; [by split|].
  destruct (maxDepth <? q_depth current) eqn:Ed; simpl; [by split|].
  apply Z.ltb_ge in Ed.
  assert (Hvisit : visit_ok log0 (SiteVisit (q_depth current) (q_url current))).
  { right. split; [done|]. destruct Hcur as [->|[[? ?] ?]]; [left; done|right; done]. }
  assert (Hl' : Forall (visit_ok log0)
                  (crawl_log c ++ [SiteVisit (q_depth current) (q_url current)])).
  { apply Forall_app. split; [done|]. by apply Forall_singleton. }
  destruct (fetchHtml E (q_url current)) as [html|m]; simpl.
  2:{ split; [done|]. simpl. apply Forall_app. split; [done|].
      apply Forall_singleton. by right. }
  destruct (or_str html None) as [body|]; simpl.
  2:{ split; [done|]. simpl. apply Forall_app. split; [done|].
      apply Forall_singleton. by right. }
  assert (Hl'' : Forall (visit_ok log0)
            ((crawl_log c ++ [SiteVisit (q_depth current) (q_url current)])
             ++ [SiteDiscovered (q_url current)
                   (length (extractImageUrls E (cheerio_load E body) (q_url current)))])).
  { apply Forall_app. split; [done|]. apply Forall_singleton. by right. }
  destruct (q_depth current <? maxDepth) eqn:Elt; [|by split].
  apply Z.ltb_lt in Elt.
  destruct (extractLinks E (cheerio_load E body) (q_url current) sameOriginOnly)
    as [links|m] eqn:El; simpl; [|by split].
  split; [|done]. simpl. apply enqueue_links_ok; [done| |].
  - split; [by apply item_depth_nonneg|done].
  - intros link Hin. eapply link_of_page_enqueued; [done|].
    by eapply extractLinks_spec.
Qed.

Lemma crawl_turns_inv log0 n : ∀ c,
  crawl_inv log0 c →
  crawl_inv log0 (crawl_of (crawl_turns E maxDepth sameOriginOnly n c)).
Proof.
  induction n as [|n IH]; intros c Hc; [done|].
  simpl. pose proof (crawl_turn_inv log0 c Hc) as Hstep.
  destruct (crawl_turn E maxDepth sameOriginOnly c) as [c'|c'|m c']; simpl in *; auto.
Qed.

Lemma crawl_start_inv log0 : crawl_inv log0 (crawl_start startUrl log0).
Proof.
  split; simpl.
  - apply Forall_singleton. by left.
  - apply Forall_forall. intros a Ha. by left.
Qed.

End crawl.
End CrawlFacts.

Module CrawlClaims.
Import JS JSFacts Log Crawler CrawlFacts.

(** C3 (run, extractLinks): at every moment of the crawl (after any number
    of turns of the loop, also when it has ended or [extractLinks] has
    thrown), every [SITE visit] line that the crawl added has a depth of at
    most [maxDepth], and is for the seed at depth 0 or for an enqueued link
    at a positive depth; every entry of the frontier other than the seed has
    a depth in [1..maxDepth] and a location that is the serialization of a
    parsed URL with its fragment cleared, is http or https and, when
    [sameOriginOnly] is true, has the origin of the seed. *)
Theorem crawl_bounded_same_origin (E : Env) (maxDepth : Z) (sameOriginOnly : bool)
    (startUrl : string) (log0 : list Activity) (n : nat) :
  Url.Laws (url_lib E) →
  let c := crawl_of (crawl_turns E maxDepth sameOriginOnly n (crawl_start startUrl log0)) in
  (∀ d u, SiteVisit d u ∈ crawl_log c →
     SiteVisit d u ∈ log0 ∨
     (d ≤ maxDepth ∧
      ((d = 0 ∧ u = startUrl) ∨ (0 < d ∧ enqueued_link E sameOriginOnly startUrl u)))) ∧
  (∀ item, item ∈ queue c →
     item = seed_item startUrl ∨
     (0 < q_depth item ≤ maxDepth ∧
      enqueued_link E sameOriginOnly startUrl (q_url item))).
Proof.
  intros laws. cbv zeta.
  destruct (crawl_turns_inv E maxDepth sameOriginOnly startUrl laws log0 n
              (crawl_start startUrl log0) (crawl_start_inv E maxDepth sameOriginOnly startUrl log0))
    as [Hq Hl].
  split.
  - intros d u Hin. rewrite Forall_forall in Hl. exact (Hl _ Hin).
  - intros item Hin. rewrite Forall_forall in Hq. exact (Hq _ Hin).
Qed.

Lemma find_some_in {A} (f : A → bool) l x : List.find f l = Some x → x ∈ l.
Proof. intros [H _]%List.find_some. by apply list_elem_of_In. Qed.

(** The table of the example site satisfies the laws of the URL class. *)
Lemma site_laws : Url.Laws (url_lib Fixtures.site).
Proof.
  constructor. intros raw base u. simpl. unfold Fixtures.table_new_URL.
  destruct (List.find _ Fixtures.site_urls) as [e|] eqn:Ef; [|done].
  intros [= <-]. apply find_some_in in Ef. clear raw base.
  revert e Ef. apply Forall_forall. unfold Fixtures.site_urls.
  repeat (apply Forall_cons; split;
          [eexists; split; [vm_compute; reflexivity|split; reflexivity]|]).
  apply Forall_nil_2.
Qed.

(** The theorem at the example site, with depth 1 and [sameOriginOnly]:
    after one turn the frontier holds the about page and the root, not the
    page of the other site. *)
Lemma crawl_bounded_same_origin_witness :
  let c := crawl_of (crawl_turns Fixtures.site 1 true 1 (crawl_start Fixtures.root [])) in
  Url.Laws (url_lib Fixtures.site) ∧
  queue c = [ {| q_url := Fixtures.about; q_depth := 1 |} ] ∧
  (∀ item, item ∈ queue c →
     item = seed_item Fixtures.root ∨
     (0 < q_depth item ≤ 1 ∧ enqueued_link Fixtures.site true Fixtures.root (q_url item))).
Proof.
  cbv zeta. split; [exact site_laws|]. split; [vm_compute; reflexivity|].
  exact (proj2 (crawl_bounded_same_origin Fixtures.site 1 true Fixtures.root [] 1 site_laws)).
Defined.

End CrawlClaims.


(** ** pinterest-driver.js: the scroll collector *)

Module CollectFacts.
Import JS JSFacts Log Pinterest.

Lemma includes_lower text k :
  includes text k = true → includes (toLowerCase text) (toLowerCase k) = true.
Proof.
  unfold includes, toLowerCase. rewrite !chars_str.
  intros (a & b & H)%includes_l_spec. apply includes_l_spec.
  exists (toLowerCase_l a), (toLowerCase_l b).
  unfold toLowerCase_l. by rewrite H, !map_app.
Qed.

(** An element whose container text contains [sponsored] is an ad,
    whatever the case of the rest of the text. *)
Lemma sponsored_is_ad img : sponsored img → is_ad img = true.
Proof.
  intros (text & Ht & Hinc). unfold is_ad, adKeywords.
  cbn [existsb]. apply orb_true_iff. left.
  unfold container_lower. rewrite Ht. unfold or_str.
  destruct (String.eqb_spec text "") as [->|_]; [by destruct Hinc|]. simpl.
  destruct Hinc as [Hinc|Hinc]; [|done].
  apply (includes_lower text "sponsored" Hinc).
Qed.

(** The in-page script offers only candidates of elements that are not ads. *)
Lemma evaluate_plain imgs : ∀ b c,
  c ∈ urls (foldl inspect b imgs) →
  c ∈ urls b ∨ ∃ img, img ∈ imgs ∧ is_ad img = false ∧ candidate_of img = c.
Proof.
  induction imgs as [|img imgs IH]; intros b c Hc; [by left|].
  simpl in Hc. destruct (IH _ _ Hc) as [Hb|(img' & ? & ? & ?)].
  - unfold inspect in Hb. destruct (is_ad img) eqn:Ead; [by left|].
    destruct (negb (startsWith (candidate_of img) "http")); [by left|].
    destruct ((120 <? naturalWidth img) && (120 <? naturalHeight img)); [|by left].
    simpl in Hb. apply elem_of_app in Hb as [?|Hb]; [by left|].
    apply list_elem_of_singleton in Hb as ->.
    right. exists img. split; [apply list_elem_of_here|done].
  - right. exists img'. split; [by apply list_elem_of_further|done].
Qed.

Section batch.
Context (E : Env) (maxImages : nat).

Lemma add_batch_bound raws : ∀ found,
  (length found < maxImages)%nat →
  (length (add_batch E maxImages raws found) ≤ maxImages)%nat.
Proof.
  induction raws as [|raw raws IH]; intros found Hlt; simpl; [lia|].
  destruct (normalizePinterestImageUrl E raw) as [n|]; [|by apply IH].
  pose proof (length_set_add n found) as Hlen.
  destruct (maxImages <=? length (set_add n found))%nat eqn:Efull.
  - destruct (decide (n ∈ found)); lia.
  - apply Nat.leb_gt in Efull. by apply IH.
Qed.

Lemma add_batch_NoDup raws : ∀ found,
  NoDup found → NoDup (add_batch E maxImages raws found).
Proof.
  induction raws as [|raw raws IH]; intros found Hnd; simpl; [done|].
  destruct (normalizePinterestImageUrl E raw) as [n|]; [|by apply IH].
  destruct (maxImages <=? length (set_add n found))%nat;
    [|apply IH]; by apply NoDup_set_add.
Qed.

Lemma add_batch_elem raws : ∀ found u,
  u ∈ add_batch E maxImages raws found →
  u ∈ found ∨ ∃ raw, raw ∈ raws ∧ normalizePinterestImageUrl E raw = Some u.
Proof.
  induction raws as [|raw raws IH]; intros found u Hu; simpl in Hu; [by left|].
  destruct (normalizePinterestImageUrl E raw) as [n|] eqn:En.
  - assert (Hadd : u ∈ set_add n found →
              u ∈ found ∨ ∃ raw0, raw0 ∈ raw :: raws ∧ normalizePinterestImageUrl E raw0 = Some u).
    { intros [->|?]%elem_of_set_add; [right|by left].
      exists raw. split; [apply list_elem_of_here|done]. }
    destruct (maxImages <=? length (set_add n found))%nat; [by apply Hadd|].
    destruct (IH _ _ Hu) as [?|(raw' & ? & ?)]; [by apply Hadd|].
    right. exists raw'. split; [by apply list_elem_of_further|done].
  - destruct (IH _ _ Hu) as [?|(raw' & ? & ?)]; [by left|].
    right. exists raw'. split; [by apply list_elem_of_further|done].
Qed.

Lemma add_batch_grows raws : ∀ found u,
  u ∈ found → u ∈ add_batch E maxImages raws found.
Proof.
  induction raws as [|raw raws IH]; intros found u Hu; simpl; [done|].
  destruct (normalizePinterestImageUrl E raw) as [n|]; [|by apply IH].
  assert (u ∈ set_add n found) by (apply elem_of_set_add; by right).
  destruct (maxImages <=? length (set_add n found))%nat; [done|by apply IH].
Qed.

(** A batch that offers enough fresh locations fills the set exactly. *)
Lemma add_batch_full raws : ∀ found,
  (length found < maxImages)%nat →
  (maxImages ≤ length (foldl (λ s x, set_add x s) found
                         (omap (normalizePinterestImageUrl E) raws)))%nat →
  length (add_batch E maxImages raws found) = maxImages.
Proof.
  induction raws as [|raw raws IH]; intros found Hlt Hoffer; simpl in *; [lia|].
  destruct (normalizePinterestImageUrl E raw) as [n|]; simpl in Hoffer; [|by apply IH].
  pose proof (length_set_add n found) as Hlen.
  destruct (maxImages <=? length (set_add n found))%nat eqn:Efull.
  - apply Nat.leb_le in Efull. destruct (decide (n ∈ found)); lia.
  - apply Nat.leb_gt in Efull. by apply IH.
Qed.

End batch.

Section loop.
Context (E : Env) (maxImages maxScrolls : nat) (log0 : list Activity).

Local Abbreviation inv := (collect_inv E maxImages maxScrolls log0).

Lemma from_plain_mono n m u :
  (n ≤ m)%nat → from_plain_element E n u → from_plain_element E m u.
Proof.
  intros Hle (k & img & Hk & ?). exists k, img. split; [lia|done].
Qed.

(** A pass under the guard keeps the invariant. *)
Lemma pass_inv st :
  guard maxImages maxScrolls st = true → inv st → inv (pass E maxImages st).
Proof.
  unfold guard. intros [Hs Hf]%andb_true_iff (I1 & I2 & I3 & I4 & I5).
  apply Nat.ltb_lt in Hs, Hf.
  pose proof (add_batch_bound E maxImages (urls (evaluate (render E (scroll st))))
                (found st) Hf) as Hbound.
  unfold collect_inv, pass. simpl. split_and!.
  - done.
  - by apply add_batch_NoDup.
  - lia.
  - apply Forall_forall. intros u Hu.
    destruct (add_batch_elem _ _ _ _ _ Hu) as [Hold|(raw & Hraw & Hnorm)].
    + rewrite Forall_forall in I4. eapply from_plain_mono; [|by apply I4]. lia.
    + unfold evaluate in Hraw.
      destruct (evaluate_plain _ _ _ Hraw) as [Hnil|(img & Himg & Had & Hcand)];
        [by apply elem_of_nil in Hnil|].
      exists (scroll st), img. split_and!; try done; [lia| |by rewrite Hcand].
      intros Hsp. apply sponsored_is_ad in Hsp. congruence.
  - apply Forall_app. split; [done|]. apply Forall_singleton. right. split; [lia|done].
Qed.

(** With as much fuel as the scroll budget the loop is left, in a state
    that satisfies the invariant and not the guard. *)
Lemma scroll_loop_ends fuel : ∀ st,
  (maxScrolls - scroll st ≤ fuel)%nat → inv st →
  ∃ st', scroll_loop E maxImages maxScrolls fuel st = Some st' ∧ inv st' ∧
         guard maxImages maxScrolls st' = false.
Proof.
  induction fuel as [|fuel IH]; intros st Hfuel Hinv.
  - simpl. destruct (guard maxImages maxScrolls st) eqn:Eg; [|eauto].
    unfold guard in Eg. apply andb_true_iff in Eg as [Hs%Nat.ltb_lt _]. lia.
  - simpl. destruct (guard maxImages maxScrolls st) eqn:Eg; [|eauto].
    apply IH; [|by apply pass_inv].
    unfold guard in Eg. apply andb_true_iff in Eg as [Hs%Nat.ltb_lt _].
    unfold pass. simpl. lia.
Qed.

End loop.
End CollectFacts.

Module CollectClaims.
Import JS JSFacts Log Pinterest CollectFacts.

Lemma collect_start_inv E maxImages maxScrolls log0 query startUrl :
  collect_inv E maxImages maxScrolls log0 (collect_start E query startUrl log0).
Proof.
  unfold collect_inv, collect_start. simpl. split_and!; [lia|constructor|lia|constructor|].
  assert (H0 : Forall (λ a, a ∈ log0 ∨
                 match a with
                 | PinterestScroll k n _ => (k ≤ maxScrolls)%nat ∧ (n ≤ maxImages)%nat
                 | _ => True
                 end) log0).
  { apply Forall_forall. intros a Ha. by left. }
  destruct (consent_visible E); repeat (apply Forall_app; split);
    try done; apply Forall_singleton; by right.
Qed.

(** C4 (collectPinterestImageUrls): with fuel for [maxScrolls] turns the
    loop is left and the collector returns.  The returned set has no
    duplicate and at most [maxImages] elements, as has the set after every
    pass (the count each pass logs); at most [maxScrolls] passes are made,
    and the loop is left with the scroll budget used up or the set at
    [maxImages].  Every returned location is the normalized candidate of a
    rendered element whose container text holds no ad keyword, so of none
    whose container text contains [sponsored]: such an element is an ad and
    adds no candidate.  When the first rendering offers at least
    [maxImages] distinct normalized locations (as ten fresh images do for
    [maxImages] 5), exactly one pass is made and exactly [maxImages]
    locations are returned. *)
Theorem collect_bounded (E : Env) (query : string) (startUrl : option string)
    (maxImages maxScrolls fuel : nat) (log0 : list Activity) :
  (maxScrolls ≤ fuel)%nat →
  ∃ r, collectPinterestImageUrls E query startUrl maxImages maxScrolls fuel log0 = Some r ∧
    (length (imageUrls r) ≤ maxImages)%nat ∧ NoDup (imageUrls r) ∧
    collected (cstats r) = length (imageUrls r) ∧
    (scrolls (cstats r) ≤ maxScrolls)%nat ∧
    (scrolls (cstats r) = maxScrolls ∨ length (imageUrls r) = maxImages) ∧
    (∀ k n a, PinterestScroll k n a ∈ clog r →
       PinterestScroll k n a ∈ log0 ∨ ((k ≤ maxScrolls)%nat ∧ (n ≤ maxImages)%nat)) ∧
    (∀ u, u ∈ imageUrls r → from_plain_element E (scrolls (cstats r)) u) ∧
    (∀ img, sponsored img → is_ad img = true ∧ ∀ b, urls (inspect b img) = urls b) ∧
    ((0 < maxScrolls)%nat → (0 < maxImages)%nat →
     (maxImages ≤ length (offered E (render E 0)))%nat →
     scrolls (cstats r) = 1%nat ∧ length (imageUrls r) = maxImages).
Proof.
  intros Hfuel.
  destruct (scroll_loop_ends E maxImages maxScrolls log0 fuel
              (collect_start E query startUrl log0))
    as (st & Hloop & (I1 & I2 & I3 & I4 & I5) & Hguard).
  { unfold collect_start. simpl. lia. }
  { apply collect_start_inv. }
  unfold collectPinterestImageUrls. rewrite Hloop. simpl.
  eexists. split; [reflexivity|]. simpl. split_and!; try done.
  - unfold guard in Hguard. apply andb_false_iff in Hguard as [H|H];
      apply Nat.ltb_ge in H; [left|right]; lia.
  - intros k n a Hin. rewrite Forall_forall in I5. exact (I5 _ Hin).
  - intros u Hu. rewrite Forall_forall in I4. exact (I4 _ Hu).
  - intros img Hsp. pose proof (sponsored_is_ad img Hsp) as Had.
    split; [done|]. intros b. unfold inspect. by rewrite Had.
  - intros Hs Hm Hoffer.
    set (st0 := collect_start E query startUrl log0) in *.
    assert (Hg0 : guard maxImages maxScrolls st0 = true).
    { unfold guard, st0, collect_start. simpl. apply andb_true_iff.
      split; by apply Nat.ltb_lt. }
    assert (Hfull : length (found (pass E maxImages st0)) = maxImages).
    { unfold pass. simpl. apply add_batch_full; [simpl; lia|]. exact Hoffer. }
    assert (Hg1 : guard maxImages maxScrolls (pass E maxImages st0) = false).
    { unfold guard. apply andb_false_iff. right. apply Nat.ltb_ge. lia. }
    destruct fuel as [|fuel']; [lia|].
    simpl in Hloop. rewrite Hg0 in Hloop.
    assert (Hstop : scroll_loop E maxImages maxScrolls fuel' (pass E maxImages st0)
                    = Some (pass E maxImages st0)).
    { destruct fuel'; simpl; by rewrite Hg1. }
    rewrite Hstop in Hloop. injection Hloop as <-. split; [done|exact Hfull].
Qed.

(** The theorem at the gallery of the examples: ten pins and a sponsored
    one on every pass, [maxImages] 5, [maxScrolls] 50. *)
Lemma collect_bounded_witness :
  (50 ≤ 50)%nat ∧ (0 < 50)%nat ∧ (0 < 5)%nat ∧
  (5 ≤ length (offered Fixtures.gallery (render Fixtures.gallery 0)))%nat ∧
  sponsored Fixtures.promo_el ∧
  ∃ r, collectPinterestImageUrls Fixtures.gallery "travel" None 5 50 50 [] = Some r ∧
       scrolls (cstats r) = 1%nat ∧ length (imageUrls r) = 5%nat ∧
       NoDup (imageUrls r) ∧
       urls (inspect {| urls := []; localAdsSkipped := 0 |} Fixtures.promo_el) = [].
Proof.
  assert (H1 : (50 ≤ 50)%nat) by lia.
  assert (H2 : (0 < 50)%nat) by lia.
  assert (H3 : (0 < 5)%nat) by lia.
  assert (H4 : (5 ≤ length (offered Fixtures.gallery (render Fixtures.gallery 0)))%nat).
  { vm_compute. lia. }
  assert (H5 : sponsored Fixtures.promo_el).
  { exists "Sponsored by Acme". split; [reflexivity|]. right. vm_compute. reflexivity. }
  split_and!; try done.
  destruct (collect_bounded Fixtures.gallery "travel" None 5 50 50 [] H1)
    as (r & Hr & _ & Hnd & _ & _ & _ & _ & _ & Hsp & Hscenario).
  destruct (Hscenario H2 H3 H4) as [Hone Hfive].
  exists r. split; [exact Hr|]. split; [exact Hone|]. split; [exact Hfive|].
  split; [exact Hnd|]. exact (proj2 (Hsp _ H5) _).
Defined.

End CollectClaims.


(** ** The embedding at work *)

Module Examples.
Import JS Log.

(** The index page of the example site: four candidates, one of them
    twice, one 50 pixels wide, with [minWidth] 100. *)
Example site_ingest_stats :
  Crawler.stats (Crawler.downloadImages Fixtures.site Fixtures.site_candidates
                   Fixtures.output_dir 100 75 ∅ [])
  = {| Crawler.imagesFound := 4; Crawler.imagesSaved := 2;
       Crawler.imagesSkippedSmall := 1; Crawler.imagesFailed := 0;
       Crawler.imagesRecompressed := 2;
       Crawler.bytesBefore := 24; Crawler.bytesAfter := 32 |}.
Proof. vm_compute. reflexivity. Qed.

Example site_ingest_record :
  map message_of
      (Crawler.activity (Crawler.downloadImages Fixtures.site Fixtures.site_candidates
                           Fixtures.output_dir 100 75 ∅ []))
  = ["IMG saved path=/app/data/site/images/3c1bb0cd5d-800x600-a.jpg width=800 height=600 bytesBefore=12 bytesAfter=16 recompressed=true";
     "IMG skipped_small url=https://site.test/b.png width=50 minWidth=100";
     "IMG saved path=/app/data/site/images/9a0364b9e9-640x480-c.webp width=640 height=480 bytesBefore=12 bytesAfter=16 recompressed=true"].
Proof. vm_compute. reflexivity. Qed.

(** The crawl of the example site with depth 1 ends after three turns,
    having visited the root and the about page. *)
Example site_crawl :
  ∃ c, Crawler.crawl_turns Fixtures.site 1 true 3 (Crawler.crawl_start Fixtures.root [])
       = Crawler.Finished c ∧
       Crawler.crawl_log c
       = [SiteVisit 0 "https://site.test/"; SiteDiscovered "https://site.test/" 3;
          SiteVisit 1 "https://site.test/about"; SiteDiscovered "https://site.test/about" 1] ∧
       Crawler.discoveredImages c
       = ["https://site.test/img/a.jpg"; "https://site.test/b.png";
          "https://site.test/img/c.webp"; "https://site.test/img/a.jpg"].
Proof. eexists. split; [vm_compute; reflexivity|]. split; reflexivity. Qed.

Example basename_cases :
  (basename "a/b/", basename "/", basename "..", basename "a//b//", basename "cat.jpg")
  = ("b", "", "..", "b", "cat.jpg").
Proof. vm_compute. reflexivity. Qed.

Example safeImageName_cases :
  (Server.safeImageName (Server.JStr " cat.jpg "), Server.safeImageName (Server.JStr "a/b"),
   Server.safeImageName (Server.JStr ".."), Server.safeImageName (Server.JStr "b/"),
   Server.safeImageName Server.JNull)
  = (Some "cat.jpg", None, None, None, None).
Proof. vm_compute. reflexivity. Qed.

Example parseLogLine_stamped :
  Server.parseLogLine Fixtures.date_parse
    "[2024-05-01T10:00:05.000Z] PINTEREST collected_total=8"
  = {| Server.timestamp := Some 1714557605000;
       Server.message := "PINTEREST collected_total=8" |}.
Proof. vm_compute. reflexivity. Qed.

Example parseLogLine_plain :
  Server.parseLogLine Fixtures.date_parse "no stamp"
  = {| Server.timestamp := None; Server.message := "no stamp" |}.
Proof. vm_compute. reflexivity. Qed.

Example pattern_cases :
  (Server.scrollMatch "PINTEREST scroll=12  collected=34 adsSkipped=1",
   Server.totalMatch "xx PINTEREST collected_total=007",
   Server.scrollMatch "PINTEREST scroll= collected=3")
  = (Some 34, Some 7, None).
Proof. vm_compute. reflexivity. Qed.

Example strip_extension_cases :
  (Crawler.strip_extension "photo.jpeg", Crawler.strip_extension "a.b.c",
   Crawler.strip_extension "x.abcdefgh", Crawler.sanitizeFilename "a b%20c.d")
  = ("photo", "a.b.c", "x.abcdefgh", "a_b_20c.d").
Proof. vm_compute. reflexivity. Qed.

Example normalize_thumbnail :
  Pinterest.normalizePinterestImageUrl Fixtures.gallery "https://i.pinimg.com/236x/p01.jpg"
  = Some "https://i.pinimg.com/originals/p01.jpg".
Proof. vm_compute. reflexivity. Qed.

(** Three passes over the gallery with room for 25 images: the set stays at
    the ten pins, the sponsored element is skipped on every pass. *)
Example gallery_three_passes :
  (λ r, (Pinterest.imageUrls r, Pinterest.cstats r))
    <$> Pinterest.collectPinterestImageUrls Fixtures.gallery "travel" None 25 3 3 []
  = Some (map (λ n, "https://i.pinimg.com/originals/" +:+ n +:+ ".jpg") Fixtures.pin_names,
          {| Pinterest.scrolls := 3; Pinterest.collected := 10;
             Pinterest.st_adsSkipped := 3; Pinterest.st_maxImages := 25;
             Pinterest.st_maxScrolls := 3 |}).
Proof. vm_compute. reflexivity. Qed.

(** The arguments the server passes to the crawler for a pinterest job. *)
Example crawler_args :
  Server.buildCrawlerArgs (Fixtures.pinterest_payload 8)
  = ["src/crawler.js"; "--mode"; "pinterest"; "--query"; "travel photography";
     "--min-width"; "300"; "--q"; "70"; "--max-images"; "8"; "--max-scrolls"; "35";
     "--headful"; "false"].
Proof. vm_compute. reflexivity. Qed.

End Examples.


(** ** From the server to the crawler: the command line *)

Module CliFacts.
Import JS JSFacts Server Cli.

(** The two tokens that [addArg] appends for a field, if any. *)
Lemma addArg_app args key value :
  addArg args key value
  = args ++ (if exists_ value then ["--" +:+ key; toString value] else []).
Proof. unfold addArg. destruct (exists_ value); [done|]. by rewrite app_nil_r. Qed.

Lemma buildCrawlerArgs_fields payload :
  buildCrawlerArgs payload
  = "src/crawler.js"
    :: concat (map (λ kv, if exists_ kv.2 then ["--" +:+ kv.1; toString kv.2] else [])
                   (crawler_fields payload)).
Proof.
  unfold buildCrawlerArgs. rewrite !addArg_app. unfold crawler_fields.
  cbn [map concat fst snd]. rewrite <- !app_assoc, app_nil_r. reflexivity.
Qed.

Lemma trim_empty : trim "" = "".
Proof. reflexivity. Qed.

Lemma exists_nonempty v : exists_ v = true → toString v ≠ "".
Proof.
  unfold exists_. intros H Hs.
  destruct v; try done; simpl in *; rewrite Hs in H; done.
Qed.

Lemma flag_token key : startsWith ("--" +:+ key) "--" = true ∧ slice2 ("--" +:+ key) = key.
Proof.
  unfold startsWith, slice2. rewrite chars_app. split.
  - apply startsWith_l_app.
  - simpl. apply str_chars.
Qed.

(** Parsing the tokens of fields none of which reads as a flag. *)
Lemma parseArgs_fields kvs : ∀ out,
  Forall not_a_flag kvs.*2 →
  parseArgs_from
    (concat (map (λ kv, if exists_ kv.2 then ["--" +:+ kv.1; toString kv.2] else []) kvs)) out
  = foldl (λ m kv, if exists_ kv.2 then <[kv.1 := AStr (toString kv.2)]> m else m) out kvs.
Proof.
  induction kvs as [|[k v] kvs IH]; intros out Hok; [done|].
  apply Forall_cons in Hok as [Hv Hok]. cbn [map concat foldl fst snd].
  destruct (exists_ v) eqn:Ev; [|by apply IH].
  cbn [app parseArgs_from]. destruct (flag_token k) as [-> ->]. cbn [negb].
  pose proof (exists_nonempty v Ev) as Hne. apply String.eqb_neq in Hne.
  cbn [snd] in Hv. rewrite Hne, (Hv Ev). simpl. by apply IH.
Qed.

Lemma fold_fields_other kvs : ∀ (out : gmap string ArgVal) key,
  key ∉ kvs.*1 →
  foldl (λ m kv, if exists_ kv.2 then <[kv.1 := AStr (toString kv.2)]> m else m) out kvs
    !! key = out !! key.
Proof.
  induction kvs as [|[k v] kvs IH]; intros out key Hk; [done|].
  cbn [foldl fst snd]. apply not_elem_of_cons in Hk as [Hne Hk].
  rewrite IH by done. destruct (exists_ v); [|done]. by rewrite lookup_insert_ne.
Qed.

Lemma fold_fields_lookup kvs : ∀ (out : gmap string ArgVal) key value,
  NoDup kvs.*1 → (key, value) ∈ kvs → out !! key = None →
  foldl (λ m kv, if exists_ kv.2 then <[kv.1 := AStr (toString kv.2)]> m else m) out kvs
    !! key = handed_over value.
Proof.
  induction kvs as [|[k v] kvs IH]; intros out key value Hnd Hin Hout;
    [by apply elem_of_nil in Hin|].
  cbn [foldl fst snd]. apply NoDup_cons in Hnd as [Hk Hnd].
  apply elem_of_cons in Hin as [[= -> ->]|Hin].
  - rewrite fold_fields_other by done. unfold handed_over.
    destruct (exists_ v); [by rewrite lookup_insert_eq|done].
  - apply IH; [done|done|].
    assert (key ≠ k).
    { intros ->. apply Hk. apply list_elem_of_fmap. by exists (k, value). }
    destruct (exists_ v); [by rewrite lookup_insert_ne|done].
Qed.

Lemma crawler_fields_keys payload :
  (crawler_fields payload).*1
  = ["mode"; "url"; "query"; "depth"; "min-width"; "q"; "cookie"; "same-origin";
     "max-images"; "max-scrolls"; "headful"].
Proof. reflexivity. Qed.

(** What the crawler parses from the arguments the server builds. *)
Lemma args_of_payload payload :
  Forall not_a_flag (crawler_fields payload).*2 →
  (∀ key value, (key, value) ∈ crawler_fields payload →
     parseArgs (tail (buildCrawlerArgs payload)) !! key = handed_over value) ∧
  (∀ key, key ∉ (crawler_fields payload).*1 →
     parseArgs (tail (buildCrawlerArgs payload)) !! key = None).
Proof.
  intros Hok. rewrite buildCrawlerArgs_fields. cbn [tail]. unfold parseArgs.
  rewrite parseArgs_fields by done. split.
  - intros key value Hin. apply fold_fields_lookup; [|done|done].
    rewrite crawler_fields_keys. apply (bool_decide_unpack _). vm_compute. exact I.
  - intros key Hk. by rewrite fold_fields_other.
Qed.

End CliFacts.

Module CliProperties.
Import JS JSFacts Server Cli CliFacts.

(** X1 (buildCrawlerArgs, addArg, parseArgs): when no field that the server
    passes on starts with two dashes, the crawler reads back every field of
    the payload under its key as the string the server wrote, reads nothing
    for a field that is undefined, null or blank, and reads no other key. *)
Theorem payload_reaches_crawler (payload : Payload) :
  Forall not_a_flag (crawler_fields payload).*2 →
  let args := parseArgs (tail (buildCrawlerArgs payload)) in
  args !! "mode" = handed_over (or_else (p_mode payload) (JStr "site")) ∧
  args !! "url" = handed_over (p_url payload) ∧
  args !! "query" = handed_over (p_query payload) ∧
  args !! "depth" = handed_over (p_depth payload) ∧
  args !! "min-width" = handed_over (p_minWidth payload) ∧
  args !! "q" = handed_over (p_quality payload) ∧
  args !! "cookie" = handed_over (p_cookie payload) ∧
  args !! "same-origin" = handed_over (p_sameOrigin payload) ∧
  args !! "max-images" = handed_over (p_maxImages payload) ∧
  args !! "max-scrolls" = handed_over (p_maxScrolls payload) ∧
  args !! "headful" = handed_over (p_headful payload) ∧
  (∀ key, key ∉ ["mode"; "url"; "query"; "depth"; "min-width"; "q"; "cookie";
                 "same-origin"; "max-images"; "max-scrolls"; "headful"] →
     args !! key = None).
Proof.
  intros Hok. cbv zeta. destruct (args_of_payload payload Hok) as [Hin Hout].
  split_and!.
  all: try (apply Hin; unfold crawler_fields;
            repeat first [apply list_elem_of_here | apply list_elem_of_further]).
  intros key Hk. apply Hout. by rewrite crawler_fields_keys.
Qed.

Ltac fields_ok :=
  unfold crawler_fields; cbn [fmap list_fmap snd];
  repeat (apply Forall_cons; split; [intros _; vm_compute; reflexivity|]);
  apply Forall_nil_2.

(** The theorem at the payload of a pinterest job. *)
Lemma payload_reaches_crawler_witness :
  Forall not_a_flag (crawler_fields (Fixtures.pinterest_payload 8)).*2 ∧
  parseArgs (tail (buildCrawlerArgs (Fixtures.pinterest_payload 8))) !! "query"
  = Some (AStr "travel photography") ∧
  parseArgs (tail (buildCrawlerArgs (Fixtures.pinterest_payload 8))) !! "url" = None.
Proof.
  assert (Hok : Forall not_a_flag (crawler_fields (Fixtures.pinterest_payload 8)).*2)
    by fields_ok.
  split; [exact Hok|].
  destruct (payload_reaches_crawler (Fixtures.pinterest_payload 8) Hok)
    as (_ & Hurl & Hquery & _).
  split; [exact Hquery|exact Hurl].
Defined.

Lemma handed_over_string args key v :
  args !! key = handed_over v →
  option_string args key = if exists_ v then toString v else "".
Proof.
  unfold option_string, handed_over. intros ->.
  destruct (exists_ v) eqn:Ev; [|done]. simpl.
  apply exists_nonempty, String.eqb_neq in Ev. by rewrite Ev.
Qed.

(** X2 (run, parseArgs, buildCrawlerArgs): what the crawler makes of a
    payload none of whose passed fields starts with two dashes.  Its mode is
    the lower-cased mode of the payload, [site] when that is missing or
    blank; its start URL and query are the strings of the payload, empty
    when missing or blank; it follows links of other origins only when the
    [sameOrigin] field is passed and reads [false] in some letter case; and
    it ends with the usage text exactly when the mode is [site] without a
    URL, or [pinterest] without URL and query. *)
Theorem crawler_options_of_payload (payload : Payload) :
  Forall not_a_flag (crawler_fields payload).*2 →
  let args := parseArgs (tail (buildCrawlerArgs payload)) in
  let mode_field := or_else (p_mode payload) (JStr "site") in
  let mode := if exists_ mode_field then toLowerCase (toString mode_field) else "site" in
  option_mode args = mode ∧
  option_string args "url" = (if exists_ (p_url payload) then toString (p_url payload) else "") ∧
  option_string args "query"
  = (if exists_ (p_query payload) then toString (p_query payload) else "") ∧
  option_sameOriginOnly args
  = (if exists_ (p_sameOrigin payload)
     then negb (String.eqb (toLowerCase (toString (p_sameOrigin payload))) "false")
     else true) ∧
  usage_error args
  = (String.eqb mode "site" && negb (exists_ (p_url payload))
     || String.eqb mode "pinterest" && negb (exists_ (p_url payload))
        && negb (exists_ (p_query payload))).
Proof.
  intros Hok. cbv zeta.
  destruct (payload_reaches_crawler payload Hok)
    as (Hmode & Hurl & Hquery & _ & _ & _ & _ & Hso & _).
  cbv zeta in *.
  set (args := parseArgs (tail (buildCrawlerArgs payload))) in *.
  assert (Hm : option_mode args
               = if exists_ (or_else (p_mode payload) (JStr "site"))
                 then toLowerCase (toString (or_else (p_mode payload) (JStr "site")))
                 else "site").
  { unfold option_mode. rewrite Hmode. unfold handed_over.
    destruct (exists_ (or_else (p_mode payload) (JStr "site"))) eqn:Ev; [|done]. simpl.
    apply exists_nonempty, String.eqb_neq in Ev. by rewrite Ev. }
  pose proof (handed_over_string _ _ _ Hurl) as Hu.
  pose proof (handed_over_string _ _ _ Hquery) as Hq.
  split_and!; try done.
  - unfold option_sameOriginOnly. rewrite Hso. unfold handed_over.
    by destruct (exists_ (p_sameOrigin payload)).
  - unfold usage_error. rewrite Hm, Hu, Hq.
    destruct (exists_ (p_url payload)) eqn:Eu, (exists_ (p_query payload)) eqn:Eq;
      try (apply exists_nonempty, String.eqb_neq in Eu; rewrite Eu);
      try (apply exists_nonempty, String.eqb_neq in Eq; rewrite Eq);
      simpl; rewrite ?andb_false_r, ?andb_true_r; reflexivity.
Qed.

(** The theorem at a request for a site crawl that names no URL: the
    crawler that the server starts ends with the usage text. *)
Lemma crawler_options_of_payload_witness :
  Forall not_a_flag (crawler_fields empty_payload).*2 ∧
  option_mode (parseArgs (tail (buildCrawlerArgs empty_payload))) = "site" ∧
  usage_error (parseArgs (tail (buildCrawlerArgs empty_payload))) = true.
Proof.
  assert (Hok : Forall not_a_flag (crawler_fields empty_payload).*2) by fields_ok.
  split; [exact Hok|].
  destruct (crawler_options_of_payload empty_payload Hok) as (Hm & _ & _ & _ & Hu).
  split; [exact Hm|exact Hu].
Defined.

End CliProperties.


(** ** From the crawler to the server: the activity record *)

Module RecordFacts.
Import JS JSFacts Server Cli.

Lemma take_while_stop {A} (p : A → bool) l c r :
  Forall (λ x, p x = true) l → p c = false → take_while p (l ++ c :: r) = l.
Proof.
  induction 1 as [|x l Hx _ IH]; intros Hc; simpl; [by rewrite Hc|].
  by rewrite Hx, IH.
Qed.

Lemma drop_while_stop {A} (p : A → bool) l c r :
  Forall (λ x, p x = true) l → p c = false → drop_while p (l ++ c :: r) = c :: r.
Proof.
  induction 1 as [|x l Hx _ IH]; intros Hc; simpl; [by rewrite Hc|].
  by rewrite Hx, IH.
Qed.

Lemma take_while_all {A} (p : A → bool) l :
  Forall (λ x, p x = true) l → take_while p l = l ∧ drop_while p l = [].
Proof.
  induction 1 as [|x l Hx _ [IH1 IH2]]; simpl; [done|]. by rewrite Hx, IH1, IH2.
Qed.

Lemma chars_nonempty s : s ≠ "" → chars s ≠ [].
Proof. intros Hs Hc. apply Hs. apply chars_inj. by rewrite Hc. Qed.

Lemma chars_log_line iso message :
  chars (log_line iso message)
  = "["%char :: chars iso ++ "]"%char :: " "%char :: chars message.
Proof. unfold log_line. rewrite !chars_app. done. Qed.

(** The two captures of the pattern on a line of the logger. *)
Lemma match_log_line_logged iso message :
  iso ≠ "" → "]"%char ∉ chars iso →
  match_log_line (chars (log_line iso message))
  = if forallb (λ c, negb (is_line_terminator c)) (drop_while is_white_space (chars message))
    then Some (chars iso, drop_while is_white_space (chars message))
    else None.
Proof.
  intros Hne Hbr. rewrite chars_log_line. unfold match_log_line.
  rewrite Ascii.eqb_refl.
  assert (Hall : Forall (λ c, not_close_bracket c = true) (chars iso)).
  { apply Forall_forall. intros c Hc. unfold not_close_bracket.
    destruct (Ascii.eqb_spec c "]") as [->|]; done. }
  rewrite take_while_stop, drop_while_stop by done.
  destruct (chars iso) as [|c0 l0] eqn:Ei; [by apply chars_nonempty in Hne|].
  reflexivity.
Qed.

(** Splitting at a separator that the first piece does not contain. *)
Lemma split_l_piece sep l rest :
  sep ∉ l → split_l sep (l ++ sep :: rest) = l :: split_l sep rest.
Proof.
  induction l as [|c l IH]; intros Hsep; simpl.
  - by rewrite Ascii.eqb_refl.
  - apply not_elem_of_cons in Hsep as [Hne Hsep].
    destruct (Ascii.eqb_spec c sep) as [->|_]; [done|]. by rewrite IH.
Qed.

Lemma chars_append_lines lines : ∀ content,
  chars (foldl append_line content lines)
  = chars content ++ concat (map (λ l, chars l ++ ["010"%char]) lines).
Proof.
  induction lines as [|l lines IH]; intros content; simpl.
  - by rewrite app_nil_r.
  - rewrite IH. unfold append_line, newline. rewrite !chars_app. simpl.
    by rewrite <- ?app_assoc.
Qed.

Lemma split_lines lines :
  Forall (λ l, "010"%char ∉ chars l) lines →
  map str (split_l "010" (concat (map (λ l, chars l ++ ["010"%char]) lines)))
  = lines ++ [""].
Proof.
  induction 1 as [|l lines Hl _ IH]; [done|].
  cbn [map concat]. rewrite <- app_assoc. cbn [app].
  rewrite split_l_piece by done. cbn [map]. by rewrite IH, str_chars.
Qed.

Lemma filter_nonempty_lines (lines : list string) :
  Forall (λ l, l ≠ "") lines → filter (λ s, s ≠ "") (lines ++ [""]) = lines.
Proof.
  intros H. rewrite filter_app.
  assert (filter (λ s : string, s ≠ "") lines = lines) as ->.
  { induction H as [|l lines Hl _ IH]; [done|].
    rewrite filter_cons_True by done. by rewrite IH. }
  rewrite filter_cons_False by (intros ?; done). by rewrite app_nil_r.
Qed.

Lemma slice_last_length {A} n (l : list A) :
  (0 < n)%nat → (length (slice_last n l) ≤ n)%nat.
Proof. intros Hn. destruct n; [lia|]. simpl. rewrite length_drop. lia. Qed.

Lemma slice_last_Forall {A} (P : A → Prop) n (l : list A) :
  Forall P l → Forall P (slice_last n l).
Proof. intros H. destruct n; simpl; [done|]. by apply Forall_drop. Qed.

End RecordFacts.

Module RecordProperties.
Import JS JSFacts Server Cli RecordFacts.

(** X3 (createLogger, parseLogLine): a line that the logger wrote at a time
    whose text is not empty and holds no closing bracket is read back by the
    estimator with the parsed time and the message without its leading
    white space, provided the rest of the message holds no line terminator.
    When it holds one, the pattern does not match: the line counts as a
    message without time stamp that starts with the bracket. *)
Theorem logged_line_read_back (Date_parse : string → option Z) (iso message : string) :
  iso ≠ "" → "]"%char ∉ chars iso →
  let body := drop_while is_white_space (chars message) in
  (Forall (λ c, is_line_terminator c = false) body →
   parseLogLine Date_parse (log_line iso message)
   = {| timestamp := Date_parse iso; Server.message := str body |}) ∧
  (Exists (λ c, is_line_terminator c = true) body →
   parseLogLine Date_parse (log_line iso message)
   = {| timestamp := None; Server.message := log_line iso message |}).
Proof.
  intros Hne Hbr. cbv zeta. unfold parseLogLine.
  rewrite (match_log_line_logged iso message Hne Hbr). split.
  - intros Hclean.
    assert (forallb (λ c, negb (is_line_terminator c))
              (drop_while is_white_space (chars message)) = true) as ->.
    { apply forallb_forall. intros c Hc%list_elem_of_In.
      rewrite Forall_forall in Hclean. by rewrite (Hclean c Hc). }
    by rewrite str_chars.
  - intros Hdirty.
    assert (forallb (λ c, negb (is_line_terminator c))
              (drop_while is_white_space (chars message)) = false) as ->; [|done].
    apply not_true_is_false. intros Hall. rewrite forallb_forall in Hall.
    apply Exists_exists in Hdirty as (c & Hc & Hterm).
    apply list_elem_of_In in Hc. specialize (Hall c Hc). by rewrite Hterm in Hall.
Qed.

(** The theorem at a line of a pinterest run. *)
Lemma logged_line_read_back_witness :
  ("2024-05-01T10:00:05.000Z" ≠ "") ∧
  ("]"%char ∉ chars "2024-05-01T10:00:05.000Z") ∧
  Forall (λ c, is_line_terminator c = false)
    (drop_while is_white_space (chars "PINTEREST collected_total=8")) ∧
  parseLogLine Fixtures.date_parse
    (log_line "2024-05-01T10:00:05.000Z" "PINTEREST collected_total=8")
  = {| timestamp := Some 1714557605000; Server.message := "PINTEREST collected_total=8" |}.
Proof.
  assert (H1 : "2024-05-01T10:00:05.000Z" ≠ "") by discriminate.
  assert (H2 : "]"%char ∉ chars "2024-05-01T10:00:05.000Z").
  { apply (bool_decide_unpack _). vm_compute. exact I. }
  assert (H3 : Forall (λ c, is_line_terminator c = false)
                 (drop_while is_white_space (chars "PINTEREST collected_total=8"))).
  { apply (bool_decide_unpack _). vm_compute. exact I. }
  split; [exact H1|]. split; [exact H2|]. split; [exact H3|].
  exact (proj1 (logged_line_read_back Fixtures.date_parse _ _ H1 H2) H3).
Defined.

(** X4 (createLogger, readTail): a file to which the logger appended lines
    that are not empty and hold no line feed is read back as these lines,
    the last [maxLines] of them; for [maxLines] 0 the slice starts at index
    0 and all lines come back.  Whatever the content of the file, the lines
    returned are not empty and, for a positive [maxLines], at most
    [maxLines]. *)
Theorem appended_lines_read_back (lines : list string) (maxLines : nat) :
  Forall (λ l, l ≠ "" ∧ "010"%char ∉ chars l) lines →
  readTail (foldl append_line "" lines) maxLines = slice_last maxLines lines ∧
  readTail (foldl append_line "" lines) 0 = lines ∧
  (∀ raw, Forall (λ l, l ≠ "") (readTail raw maxLines)) ∧
  (∀ raw, (0 < maxLines)%nat → (length (readTail raw maxLines) ≤ maxLines)%nat).
Proof.
  intros Hlines.
  assert (Hsplit : filter (λ s, s ≠ "") (split "010" (foldl append_line "" lines)) = lines).
  { unfold split. rewrite chars_append_lines. simpl.
    rewrite split_lines.
    - apply filter_nonempty_lines. eapply Forall_impl; [exact Hlines|]. by intros l [? _].
    - eapply Forall_impl; [exact Hlines|]. by intros l [_ ?]. }
  split_and!.
  - unfold readTail. by rewrite Hsplit.
  - unfold readTail. by rewrite Hsplit.
  - intros raw. unfold readTail.
    apply slice_last_Forall.
    apply Forall_forall. by intros l [? _]%list_elem_of_filter.
  - intros raw Hpos. unfold readTail. by apply slice_last_length.
Qed.

(** The theorem at the record of the examples, read with a window of two
    lines. *)
Lemma appended_lines_read_back_witness :
  Forall (λ l, l ≠ "" ∧ "010"%char ∉ chars l) Fixtures.progress_logs ∧
  readTail (foldl append_line "" Fixtures.progress_logs) 2
  = slice_last 2 Fixtures.progress_logs.
Proof.
  assert (H : Forall (λ l, l ≠ "" ∧ "010"%char ∉ chars l) Fixtures.progress_logs).
  { unfold Fixtures.progress_logs.
    repeat (apply Forall_cons; split;
            [split; [discriminate|apply (bool_decide_unpack _); vm_compute; exact I]|]).
    apply Forall_nil_2. }
  split; [exact H|].
  exact (proj1 (appended_lines_read_back Fixtures.progress_logs 2 H)).
Defined.

End RecordProperties.



(** ** crawler.js: the outcome of every candidate *)

Module OutcomeFacts.
Import JS JSFacts Log Crawler IngestFacts RunFacts Outcome.

(** The [try] block adds the line and the write of the location, whatever
    the state it starts from, and moves the counter of the line's kind. *)
Lemma ingest_outcome E dir mw q u st :
  ∃ ev, outcome_line E dir mw q u = Some ev ∧
    activity (ingest E dir mw q u st) = activity st ++ [ev] ∧
    written (ingest E dir mw q u st)
    = written st ++ option_list (outcome_write E dir mw q u) ∧
    saved_path ev = (λ w, w.1.2) <$> outcome_write E dir mw q u ∧
    imagesSaved (stats (ingest E dir mw q u st))
    = (imagesSaved (stats st) + Nat.b2n (is_img_saved ev))%nat ∧
    imagesSkippedSmall (stats (ingest E dir mw q u st))
    = (imagesSkippedSmall (stats st) + Nat.b2n (is_img_skipped ev))%nat ∧
    imagesFailed (stats (ingest E dir mw q u st))
    = (imagesFailed (stats st) + Nat.b2n (is_img_failed ev))%nat.
Proof.
  unfold outcome_line, outcome_write, blank.
  ingest_cases; eexists; (split; [reflexivity|]); simpl;
    rewrite ?app_nil_r; split_and!; try done; lia.
Qed.

Section run.
Context (E : Env) (dir : string) (mw q : Z).

Local Abbreviation step := (download_step E dir mw q).
Local Abbreviation line_of := (outcome_line E dir mw q).
Local Abbreviation write_of := (outcome_write E dir mw q).

(** The record and the writes of a run, location by location. *)
Lemma run_outcomes urls : ∀ st,
  downloadedImages st = list_to_set (fetched st) →
  let st' := foldl step st urls in
  let news := drop (length (fetched st)) (fetched st') in
  activity st' = activity st ++ omap line_of news ∧
  written st' = written st ++ omap write_of news ∧
  length (omap line_of news) = length news ∧
  imagesSaved (stats st')
  = (imagesSaved (stats st) + count_if is_img_saved (omap line_of news))%nat ∧
  imagesSkippedSmall (stats st')
  = (imagesSkippedSmall (stats st) + count_if is_img_skipped (omap line_of news))%nat ∧
  imagesFailed (stats st')
  = (imagesFailed (stats st) + count_if is_img_failed (omap line_of news))%nat ∧
  omap saved_path (omap line_of news) = (omap write_of news).*1.*2.
Proof.
  induction urls as [|u urls IH]; intros st Hinv.
  { cbn [foldl]. cbv zeta. rewrite drop_all. simpl. rewrite !app_nil_r.
    unfold count_if. simpl. split_and!; try done; lia. }
  cbn [foldl]. destruct (decide (u ∈ downloadedImages st)) as [Hin|Hnin].
  { rewrite (step_duplicate _ _ _ _ _ _ Hin). by apply IH. }
  rewrite (step_fresh _ _ _ _ _ _ Hnin).
  destruct (ingest_frame E dir mw q u (seen u st)) as (F1 & F2 & _ & _).
  destruct (ingest_outcome E dir mw q u (seen u st))
    as (ev & Hev & Ha & Hw & Hp & S1 & S2 & S3).
  simpl in F1, F2, Ha, Hw, S1, S2, S3.
  set (st1 := ingest E dir mw q u (seen u st)) in *.
  assert (Hinv1 : downloadedImages st1 = list_to_set (fetched st1)).
  { rewrite F1, F2, Hinv, list_to_set_app_L. simpl.
    rewrite union_empty_r_L. apply (comm_L _). }
  specialize (IH st1 Hinv1). cbv zeta in IH.
  destruct (run_fetched E dir mw q urls st1 Hinv1) as (G1 & _).
  assert (Hpre : ∃ rest, fetched (foldl step st1 urls) = fetched st1 ++ rest).
  { rewrite G1. clear. generalize (fetched st1). induction urls as [|v urls IH]; intros l.
    - exists []. by rewrite app_nil_r.
    - simpl. destruct (IH (set_add v l)) as [rest Hrest]. rewrite Hrest.
      unfold set_add. destruct (decide (v ∈ l)); [by exists rest|].
      exists (v :: rest). by rewrite <- app_assoc. }
  destruct Hpre as [rest Hrest]. cbv zeta.
  rewrite Hrest in IH |- *. rewrite F2 in IH |- *.
  rewrite drop_app_length in IH.
  rewrite <- app_assoc, drop_app_length.
  change ([u] ++ rest) with (u :: rest).
  destruct IH as (I1 & I2 & I3 & I4 & I5 & I6 & I7).
  assert (Hl : omap line_of (u :: rest) = ev :: omap line_of rest).
  { simpl. by rewrite Hev. }
  assert (Hwr : omap write_of (u :: rest) = option_list (write_of u) ++ omap write_of rest).
  { simpl. by destruct (write_of u). }
  rewrite Hl, Hwr. unfold count_if in *. cbn [List.filter length omap list_omap].
  rewrite I1, I2, Ha, Hw, I4, I5, I6, S1, S2, S3, <- !app_assoc.
  destruct (write_of u) as [w|] eqn:Ew; simpl in Hp |- *.
  - destruct ev; try discriminate. simpl in *. simplify_eq.
    split_and!; try done; try lia. by rewrite I7.
  - destruct ev; try discriminate; simpl in *;
      split_and!; try done; try lia.
Qed.

End run.
End OutcomeFacts.

Module OutcomeProperties.
Import JS JSFacts Log Crawler IngestFacts RunFacts Outcome OutcomeFacts.

Lemma outcome_line_kind E dir mw q u ev :
  outcome_line E dir mw q u = Some ev →
  (Nat.b2n (is_img_saved ev) + Nat.b2n (is_img_skipped ev) + Nat.b2n (is_img_failed ev))%nat
  = 1%nat.
Proof.
  intros Hev.
  destruct (ingest_outcome E dir mw q u blank) as (ev' & Hev' & _ & _ & _ & S1 & S2 & S3).
  rewrite Hev in Hev'. injection Hev' as <-.
  destruct (ingest_frame E dir mw q u blank) as (_ & _ & F3 & _).
  unfold outcomes in F3. lia.
Qed.

Lemma count_kinds (lines : list Activity) :
  Forall (λ ev, (Nat.b2n (is_img_saved ev) + Nat.b2n (is_img_skipped ev)
                 + Nat.b2n (is_img_failed ev))%nat = 1%nat) lines →
  (count_if is_img_saved lines + count_if is_img_skipped lines
   + count_if is_img_failed lines)%nat = length lines.
Proof.
  unfold count_if. induction 1 as [|ev lines Hev _ IH]; [done|]. simpl.
  destruct (is_img_saved ev), (is_img_skipped ev), (is_img_failed ev);
    simpl in *; lia.
Qed.

Lemma count_saved_paths (lines : list Activity) :
  length (omap saved_path lines) = count_if is_img_saved lines.
Proof.
  unfold count_if. induction lines as [|ev lines IH]; [done|].
  destruct ev; simpl; first [exact IH | f_equal; exact IH].
Qed.

Lemma omap_cons_Some {A B} (f : A → option B) x y l :
  f x = Some y → omap f (x :: l) = y :: omap f l.
Proof. intros H. simpl. by rewrite H. Qed.

Lemma omap_outcomes E dir mw q (us : list string) :
  length (omap (outcome_line E dir mw q) us) = length us ∧
  Forall (λ ev, (Nat.b2n (is_img_saved ev) + Nat.b2n (is_img_skipped ev)
                 + Nat.b2n (is_img_failed ev))%nat = 1%nat)
         (omap (outcome_line E dir mw q) us).
Proof.
  induction us as [|u us [IH1 IH2]]; [by split|].
  destruct (ingest_outcome E dir mw q u blank) as (ev & Hev & _).
  rewrite (omap_cons_Some _ _ _ _ Hev). split; [simpl; by rewrite IH1|].
  apply Forall_cons. split; [by eapply outcome_line_kind|done].
Qed.

(** X5 (downloadImages): the run appends to the activity record exactly one
    line for every distinct location, in the order of first occurrence: the
    line of that location's outcome, which is one of the kinds saved,
    skipped_small and failed (non-image or error).  The three counters are
    the numbers of new lines of their kinds, the files written are those of
    the saved lines, with the same paths in the same order, and
    [imagesSaved] is the number of files written. *)
Theorem record_of_run (E : Env) (urls : list string) (dir : string) (mw q : Z)
    (store0 : gmap string string) (log0 : list Activity) :
  let r := downloadImages E urls dir mw q store0 log0 in
  let lines := omap (outcome_line E dir mw q) (set_of_list urls) in
  activity r = log0 ++ lines ∧
  length lines = length (set_of_list urls) ∧
  Forall (λ ev, is_img_saved ev || is_img_skipped ev || is_img_failed ev = true) lines ∧
  imagesSaved (stats r) = count_if is_img_saved lines ∧
  imagesSkippedSmall (stats r) = count_if is_img_skipped lines ∧
  imagesFailed (stats r) = count_if is_img_failed lines ∧
  written r = omap (outcome_write E dir mw q) (set_of_list urls) ∧
  omap saved_path lines = (written r).*1.*2 ∧
  imagesSaved (stats r) = length (written r).
Proof.
  cbv zeta. unfold downloadImages.
  destruct (run_fetched E dir mw q urls _ (IngestClaims.download_start_inv urls store0 log0))
    as (F1 & _).
  destruct (run_outcomes E dir mw q urls _ (IngestClaims.download_start_inv urls store0 log0))
    as (H1 & H2 & H3 & H4 & H5 & H6 & H7).
  simpl in F1, H1, H2, H3, H4, H5, H6, H7. fold (set_of_list urls) in F1.
  rewrite drop_0, F1 in *.
  destruct (omap_outcomes E dir mw q (set_of_list urls)) as [L1 L2].
  split_and!; try done.
  - eapply Forall_impl; [exact L2|]. intros ev Hev. simpl in Hev.
    destruct (is_img_saved ev), (is_img_skipped ev), (is_img_failed ev); simpl in *; done.
  - rewrite H2. exact H7.
  - rewrite H4, H2, <- count_saved_paths, H7, !length_fmap. done.
Qed.

(** A write is for the location it was made for. *)
Lemma outcome_write_url E dir mw q u w :
  outcome_write E dir mw q u = Some w → w.1.1 = u.
Proof.
  unfold outcome_write, blank. ingest_cases; intros; simplify_eq/=; done.
Qed.

Lemma elem_of_omap_Some {A B} (f : A → option B) (l : list A) x y :
  x ∈ l → f x = Some y → y ∈ omap f l.
Proof. intros Hx Hy. apply list_elem_of_omap. eauto. Qed.

(** A location whose outcome is a line other than saved: the line is in the
    record and nothing is written for it. *)
Lemma outcome_in_run E urls dir mw q store0 log0 u ev :
  u ∈ urls →
  outcome_line E dir mw q u = Some ev → outcome_write E dir mw q u = None →
  ev ∈ activity (downloadImages E urls dir mw q store0 log0) ∧
  ∀ path data, (u, path, data) ∉ written (downloadImages E urls dir mw q store0 log0).
Proof.
  intros Hin Hev Hw.
  destruct (record_of_run E urls dir mw q store0 log0)
    as (Ha & _ & _ & _ & _ & _ & Hwr & _).
  cbv zeta in Ha, Hwr. rewrite Ha, Hwr. split.
  - apply elem_of_app. right.
    eapply elem_of_omap_Some; [|exact Hev]. by apply elem_of_set_of_list.
  - intros path data Hmem. apply list_elem_of_omap in Hmem as (u' & _ & Hu').
    pose proof (outcome_write_url _ _ _ _ _ _ Hu') as Heq. simpl in Heq. subst u'.
    congruence.
Qed.

Ltac outcome_case :=
  unfold outcome_line, outcome_write, blank, ingest, on_throw, log, with_stats, writeFile.

(** X6 (downloadImages, fetchImage): every way in which a candidate of the
    list can fail is recorded with its own line and leaves no file, and the
    run goes on.  A client that throws, a decoder that throws, an encoder
    that throws, a location that does not parse and a write that is refused
    give [IMG error] with the message of the exception; a response with a
    status outside 200..399 or a content type that does not start with
    [image/] gives [IMG failed_non_image_or_status]. *)
Theorem failures_are_recorded (E : Env) (urls : list string) (dir : string) (mw q : Z)
    (store0 : gmap string string) (log0 : list Activity) (u : string) :
  u ∈ urls →
  let r := downloadImages E urls dir mw q store0 log0 in
  let unwritten := ∀ path data, (u, path, data) ∉ written r in
  (∀ m, client_get E u = Throw m → ImgError u m ∈ activity r ∧ unwritten) ∧
  (∀ res, client_get E u = Ret res →
     statusCode res < 200 ∨ 400 ≤ statusCode res
     ∨ startsWith (header_lower (content_type res)) "image/" = false →
     ImgFailedNonImage u ∈ activity r ∧ unwritten) ∧
  (∀ img m, fetchImage E u = Ret (Some img) → imageSize E (buffer img) = Throw m →
     ImgError u m ∈ activity r ∧ unwritten) ∧
  (∀ img size m, fetchImage E u = Ret (Some img) → imageSize E (buffer img) = Ret size →
     too_small E mw u = false →
     recompressImage E (buffer img) (type size) q = Throw m →
     ImgError u m ∈ activity r ∧ unwritten) ∧
  (∀ img size out m, fetchImage E u = Ret (Some img) → imageSize E (buffer img) = Ret size →
     too_small E mw u = false →
     recompressImage E (buffer img) (type size) q = Ret out →
     filenameFromUrl E u (type size) (Some (contentType img)) (width size) (height size)
     = Throw m →
     ImgError u m ∈ activity r ∧ unwritten) ∧
  (∀ img size out name m, fetchImage E u = Ret (Some img) →
     imageSize E (buffer img) = Ret size → too_small E mw u = false →
     recompressImage E (buffer img) (type size) q = Ret out →
     filenameFromUrl E u (type size) (Some (contentType img)) (width size) (height size)
     = Ret name →
     writeFile_error E (path_join dir name) = Some m →
     ImgError u m ∈ activity r ∧ unwritten).
Proof.
  intros Hin. cbv zeta. split_and!.
  - intros m Hc. apply outcome_in_run; [done| |];
      outcome_case; unfold fetchImage; rewrite Hc; done.
  - intros res Hc Hbad.
    assert (Hf : fetchImage E u = Ret None).
    { unfold fetchImage. rewrite Hc.
      destruct Hbad as [Hlt|[Hge|Hct]].
      - by rewrite (proj2 (Z.ltb_lt _ _) Hlt).
      - rewrite (proj2 (Z.leb_le _ _) Hge). by rewrite orb_true_r.
      - destruct ((statusCode res <? 200) || (400 <=? statusCode res)); [done|].
        by rewrite Hct. }
    apply outcome_in_run; [done| |]; outcome_case; rewrite Hf; done.
  - intros img m Hf Hs. apply outcome_in_run; [done| |];
      outcome_case; rewrite Hf, Hs; done.
  - intros img size m Hf Hs Hsmall Hr. unfold too_small in Hsmall. rewrite Hf, Hs in Hsmall.
    apply outcome_in_run; [done| |]; outcome_case; rewrite Hf, Hs, Hsmall; simpl;
      rewrite Hr; done.
  - intros img size [out rc] m Hf Hs Hsmall Hr Hn. unfold too_small in Hsmall.
    rewrite Hf, Hs in Hsmall.
    apply outcome_in_run; [done| |]; outcome_case; rewrite Hf, Hs, Hsmall; simpl;
      rewrite Hr, Hn; destruct rc; done.
  - intros img size [out rc] name m Hf Hs Hsmall Hr Hn Hw. unfold too_small in Hsmall.
    rewrite Hf, Hs in Hsmall.
    apply outcome_in_run; [done| |]; outcome_case; rewrite Hf, Hs, Hsmall; simpl;
      rewrite Hr, Hn, Hw; destruct rc; done.
Qed.

(** The theorem at a list with a location the client cannot resolve, which
    comes before an image that is stored. *)
Lemma failures_are_recorded_witness :
  let urls := ["https://site.test/gone.gif"; "https://site.test/img/a.jpg"] in
  let r := downloadImages Fixtures.site urls Fixtures.output_dir 100 75 ∅ [] in
  "https://site.test/gone.gif" ∈ urls ∧
  ImgError "https://site.test/gone.gif" "getaddrinfo ENOTFOUND" ∈ activity r ∧
  (∀ path data, ("https://site.test/gone.gif", path, data) ∉ written r) ∧
  imagesSaved (stats r) = 1%nat.
Proof.
  cbv zeta.
  assert (Hin : "https://site.test/gone.gif"
                ∈ ["https://site.test/gone.gif"; "https://site.test/img/a.jpg"]).
  { apply list_elem_of_here. }
  pose proof (failures_are_recorded Fixtures.site _ Fixtures.output_dir 100 75 ∅ [] _ Hin)
    as (Hthrow & _).
  destruct (Hthrow "getaddrinfo ENOTFOUND" eq_refl) as [Hline Hnone].
  split_and!; [exact Hin|exact Hline|exact Hnone|vm_compute; reflexivity].
Defined.

End OutcomeProperties.
